(** * A shallow embedding of puffer's WebSocket server (src/net/ws_server.cc)

    The file follows the source top to bottom: the handshake validator and
    responder, the per-connection send-buffer draining, the listener and the
    per-connection poller actions, the public methods of [WSServer] and the
    garbage collection of [loop_once].  Collaborators that live in other
    files of the repository (HTTP messages, the two parsers, the sockets)
    are modelled from their contracts and are named as such. *)

From Stdlib Require Import ZArith NArith String Ascii List Lia Bool.
From stdpp Require Import base option gmap sets list strings.

Local Open Scope string_scope.

(** ** Exceptions

    C++ exceptions are made explicit: a computation either returns or
    throws.  [out_of_range] is what [std::map::at] throws. *)

Inductive exn : Type :=
| out_of_range
| runtime_error (what : string)
| assertion_failure.

Inductive result (A : Type) : Type :=
| Ok (a : A)
| Throw (e : exn).
Arguments Ok {A} a.
Arguments Throw {A} e.

#[global] Instance result_ret : MRet result := fun A a => Ok a.
#[global] Instance result_bind : MBind result := fun A B f m =>
  match m with
  | Ok a => f a
  | Throw e => Throw e
  end.

#[global] Instance result_fmap : FMap result := fun A B f m =>
  match m with
  | Ok a => Ok (f a)
  | Throw e => Throw e
  end.

Definition returns {A} (m : result A) : bool :=
  match m with Ok _ => true | Throw _ => false end.

(** ** std::string helpers *)

(** [s.substr(pos, n)] for [pos <= s.size()]: at most [n] characters. *)
Definition substr (s : string) (pos n : nat) : string := String.substring pos n s.

(** [s.substr(pos)]: everything from [pos] on. *)
Definition substr_from (s : string) (pos : nat) : string :=
  String.substring pos (String.length s - pos) s.

(** [s.find(needle)]: the first position where [needle] occurs;
    [None] is [string::npos]. *)
Fixpoint find_from (needle s : string) (i : nat) : option nat :=
  if String.prefix needle s then Some i
  else match s with
       | EmptyString => None
       | String _ s' => find_from needle s' (S i)
       end.

Definition find (s needle : string) : option nat := find_from needle s 0.

(** [s.rfind(needle)]: the last position where [needle] occurs. *)
Fixpoint rfind_from (needle s : string) (i : nat) : option nat :=
  match s with
  | EmptyString => if String.prefix needle s then Some i else None
  | String _ s' =>
      match rfind_from needle s' (S i) with
      | Some j => Some j
      | None => if String.prefix needle s then Some i else None
      end
  end.

Definition rfind (s needle : string) : option nat := rfind_from needle s 0.

Definition npos (r : option nat) : bool :=
  match r with None => true | Some _ => false end.

(** ** The digest pipeline of the handshake

    The source feeds [sec_key + WS_MAGIC_STRING] through Crypto++'s
    [HashFilter(SHA1)] into a [Base64Encoder] without line breaks.  Both
    are written out here as the standards define them (FIPS 180-4, RFC
    4648), on bytes as [Z] in [0, 256) and 32-bit words as [Z] with the
    wrap-around explicit. *)

Module Digest.

Local Open Scope Z_scope.

Definition bytes_of_string (s : string) : list Z :=
  List.map (fun c => Z.of_N (N_of_ascii c)) (list_ascii_of_string s).

Definition wrap32 (x : Z) : Z := Z.land x 0xFFFFFFFF.

Definition rotl (n x : Z) : Z :=
  wrap32 (Z.lor (Z.shiftl x n) (Z.shiftr x (32 - n))).

Definition add32 (x y : Z) : Z := wrap32 (x + y).

(** Big-endian bytes of a [width]-byte unsigned number. *)
Fixpoint be_bytes (width : nat) (x : Z) : list Z :=
  match width with
  | O => []
  | S w => Z.land (Z.shiftr x (8 * Z.of_nat w)) 0xFF :: be_bytes w x
  end.

Definition be_word (bs : list Z) : Z :=
  fold_left (fun acc b => Z.lor (Z.shiftl acc 8) b) bs 0.

(** Padding: a one bit, zeros up to 56 modulo 64, the bit length on 8 bytes. *)
Definition pad (msg : list Z) : list Z :=
  let len := Z.of_nat (List.length msg) in
  let zeros := Z.to_nat ((55 - len) mod 64) in
  msg ++ [0x80] ++ repeat 0 zeros ++ be_bytes 8 (8 * len).

Fixpoint chunks (fuel size : nat) (bs : list Z) : list (list Z) :=
  match fuel with
  | O => []
  | S fuel' =>
      match bs with
      | [] => []
      | _ => firstn size bs :: chunks fuel' size (skipn size bs)
      end
  end.

(** The message schedule, most recent word first. *)
Fixpoint schedule (n : nat) (w : list Z) : list Z :=
  match n with
  | O => w
  | S n' =>
      let x := Z.lxor (Z.lxor (nth 2 w 0) (nth 7 w 0))
                      (Z.lxor (nth 13 w 0) (nth 15 w 0)) in
      schedule n' (rotl 1 x :: w)
  end.

Definition round_fk (t : nat) (b c d : Z) : Z * Z :=
  if (t <? 20)%nat then
    (Z.lor (Z.land b c) (Z.land (wrap32 (Z.lnot b)) d), 0x5A827999)
  else if (t <? 40)%nat then
    (Z.lxor (Z.lxor b c) d, 0x6ED9EBA1)
  else if (t <? 60)%nat then
    (Z.lor (Z.lor (Z.land b c) (Z.land b d)) (Z.land c d), 0x8F1BBCDC)
  else
    (Z.lxor (Z.lxor b c) d, 0xCA62C1D6).

Record registers : Type := { ra : Z; rb : Z; rc : Z; rd : Z; re : Z }.

Fixpoint rounds (t : nat) (ws : list Z) (r : registers) : registers :=
  match ws with
  | [] => r
  | w :: ws' =>
      let '(f, k) := round_fk t (rb r) (rc r) (rd r) in
      let temp := add32 (add32 (add32 (add32 (rotl 5 (ra r)) f) (re r)) k) w in
      rounds (S t) ws'
        {| ra := temp; rb := ra r; rc := rotl 30 (rb r); rd := rc r; re := rd r |}
  end.

Definition compress (h : registers) (block : list Z) : registers :=
  let w16 := List.map be_word (chunks 16 4 block) in
  let ws := rev (schedule 64 (rev w16)) in
  let r := rounds 0 ws h in
  {| ra := add32 (ra h) (ra r); rb := add32 (rb h) (rb r);
     rc := add32 (rc h) (rc r); rd := add32 (rd h) (rd r);
     re := add32 (re h) (re r) |}.

Definition initial_registers : registers :=
  {| ra := 0x67452301; rb := 0xEFCDAB89; rc := 0x98BADCFE;
     rd := 0x10325476; re := 0xC3D2E1F0 |}.

(** The 20-byte SHA-1 digest of a byte string. *)
Definition sha1 (msg : list Z) : list Z :=
  let padded := pad msg in
  let h := fold_left compress (chunks (List.length padded) 64 padded)
                     initial_registers in
  be_bytes 4 (ra h) ++ be_bytes 4 (rb h) ++ be_bytes 4 (rc h)
    ++ be_bytes 4 (rd h) ++ be_bytes 4 (re h).

Definition base64_alphabet : string :=
  "ABCDEFGHIJKLMNOPQRSTUVWXYZabcdefghijklmnopqrstuvwxyz0123456789+/".

Definition base64_char (i : Z) : ascii :=
  match String.get (Z.to_nat i) base64_alphabet with
  | Some c => c
  | None => "="%char
  end.

(** RFC 4648 base64 with padding and no line breaks
    ([Base64Encoder(sink, false)]). *)
Fixpoint base64_encode (bs : list Z) : string :=
  match bs with
  | [] => EmptyString
  | [b0] =>
      String (base64_char (Z.shiftr b0 2))
     (String (base64_char (Z.shiftl (Z.land b0 3) 4)) "==")
  | [b0; b1] =>
      String (base64_char (Z.shiftr b0 2))
     (String (base64_char (Z.lor (Z.shiftl (Z.land b0 3) 4) (Z.shiftr b1 4)))
     (String (base64_char (Z.shiftl (Z.land b1 15) 2)) "="))
  | b0 :: b1 :: b2 :: rest =>
      String (base64_char (Z.shiftr b0 2))
     (String (base64_char (Z.lor (Z.shiftl (Z.land b0 3) 4) (Z.shiftr b1 4)))
     (String (base64_char (Z.lor (Z.shiftl (Z.land b1 15) 2) (Z.shiftr b2 6)))
     (String (base64_char (Z.land b2 63))
             (base64_encode rest))))
  end.

End Digest.


(** ** HTTP messages *)

Record HTTPHeader : Type := { key : string; value : string }.

Record HTTPRequest : Type := {
  first_line : string;
  headers : list HTTPHeader;
  body : string
}.

Record HTTPResponse : Type := {
  response_request : option HTTPRequest;
  response_first_line : string;
  response_headers : list HTTPHeader;
  headers_done : bool;
  response_body : string
}.

(** The method token of a request line: what stands before its first space
    (the whole line when it has none). *)
Definition method_token (line : string) : string :=
  match find line " " with
  | Some i => substr line 0 i
  | None => line
  end.

(** The protocol token of a request line: what stands after its last space. *)
Definition protocol_token (line : string) : option string :=
  match rfind line " " with
  | Some i => Some (substr_from line (i + 1))
  | None => None
  end.

Section HTTPMessage.

(** Modelled from the spec: HTTPMessage (http_message.hh is not among the
    sources).  Headers are kept in arrival order and looked up by name; how
    two header names are compared is left to [equivalent_strings]. *)
Variable equivalent_strings : string -> string -> bool.

Definition has_header (request : HTTPRequest) (header_name : string) : bool :=
  existsb (fun h => equivalent_strings (key h) header_name) (headers request).

Definition get_header_value (request : HTTPRequest) (header_name : string)
  : result string :=
  match List.find (fun h => equivalent_strings (key h) header_name) (headers request) with
  | Some h => Ok (value h)
  | None => Throw (runtime_error "HTTPMessage header not found")
  end.

(** Modelled from the spec: the HTTPResponse builder (http_response.hh is
    not among the sources). *)
Definition new_response : HTTPResponse :=
  {| response_request := None; response_first_line := "";
     response_headers := []; headers_done := false; response_body := "" |}.

Definition set_request (request : HTTPRequest) (r : HTTPResponse) : HTTPResponse :=
  {| response_request := Some request;
     response_first_line := response_first_line r;
     response_headers := response_headers r;
     headers_done := headers_done r;
     response_body := response_body r |}.

Definition set_first_line (line : string) (r : HTTPResponse) : HTTPResponse :=
  {| response_request := response_request r;
     response_first_line := line;
     response_headers := response_headers r;
     headers_done := headers_done r;
     response_body := response_body r |}.

Definition add_header (h : HTTPHeader) (r : HTTPResponse) : HTTPResponse :=
  {| response_request := response_request r;
     response_first_line := response_first_line r;
     response_headers := response_headers r ++ [h];
     headers_done := headers_done r;
     response_body := response_body r |}.

Definition done_with_headers (r : HTTPResponse) : HTTPResponse :=
  {| response_request := response_request r;
     response_first_line := response_first_line r;
     response_headers := response_headers r;
     headers_done := true;
     response_body := response_body r |}.

Definition read_in_body (chunk : string) (r : HTTPResponse) : HTTPResponse :=
  {| response_request := response_request r;
     response_first_line := response_first_line r;
     response_headers := response_headers r;
     headers_done := headers_done r;
     response_body := response_body r +:+ chunk |}.

(** Modelled from the spec: the status code of a response is the token
    after the first space of its status line. *)
Definition status_code (r : HTTPResponse) : string :=
  match find (response_first_line r) " " with
  | Some i => method_token (substr_from (response_first_line r) (i + 1))
  | None => ""
  end.

(** ** The handshake validator (ws_server.cc, lines 21-58) *)

Definition is_valid_handshake_request (request : HTTPRequest) : result bool :=
  let first_line := first_line request in
  if negb (String.eqb (substr first_line 0 3) "GET") then Ok false
  else
    match rfind first_line " " with
    | None => Ok false
    | Some last_space =>
        if negb (String.eqb (substr_from first_line (last_space + 1)) "HTTP/1.1")
           && negb (String.eqb (substr_from first_line (last_space + 1)) "HTTP/2")
        then Ok false
        else
          no_upgrade ←
            (if negb (has_header request "Connection") then Ok true
             else v ← get_header_value request "Connection";
                  Ok (npos (find v "Upgrade")));
          if (no_upgrade : bool) then Ok false
          else
            not_websocket ←
              (if negb (has_header request "Upgrade") then Ok true
               else v ← get_header_value request "Upgrade";
                    Ok (negb (String.eqb v "websocket")));
            if (not_websocket : bool) then Ok false
            else
              if negb (has_header request "Sec-WebSocket-Key") then Ok false
              else Ok true
    end.

(** ** The handshake responder (ws_server.cc, lines 60-102) *)

Definition WS_MAGIC_STRING : string := "258EAFA5-E914-47DA-95CA-C5AB0DC85B11".

(** [StringSource(text, true, new HashFilter(sha1, new Base64Encoder(sink, false)))] *)
Definition sha1_base64 (text : string) : string :=
  Digest.base64_encode (Digest.sha1 (Digest.bytes_of_string text)).

Definition create_handshake_response (request : HTTPRequest) : result HTTPResponse :=
  let response := set_request request new_response in
  valid ← is_valid_handshake_request request;
  if negb valid then
    (* send "400 Bad Request" for invalid WebSocket handshake request *)
    let response := set_first_line "HTTP/1.1 400 Bad Request" response in
    let response := add_header {| key := "Content-Length"; value := "0" |} response in
    let response := add_header {| key := "Connection"; value := "close" |} response in
    let response := done_with_headers response in
    let response := read_in_body "" response in
    Ok response
  else if negb (has_header request "Origin") then
    (* reject requests without Origin *)
    let response := set_first_line "HTTP/1.1 403 Forbidden" response in
    let response := add_header {| key := "Content-Length"; value := "0" |} response in
    let response := add_header {| key := "Connection"; value := "close" |} response in
    let response := done_with_headers response in
    let response := read_in_body "" response in
    Ok response
  else
    (* compute the value of Sec-WebSocket-Accept based on Sec-WebSocket-Key *)
    sec_key ← get_header_value request "Sec-WebSocket-Key";
    let sec_accept := sha1_base64 (sec_key +:+ WS_MAGIC_STRING) in
    (* accept WebSocket request *)
    let response := set_first_line "HTTP/1.1 101 Switching Protocols" response in
    let response := add_header {| key := "Connection"; value := "Upgrade" |} response in
    let response := add_header {| key := "Upgrade"; value := "websocket" |} response in
    let response := add_header {| key := "Sec-WebSocket-Accept"; value := sec_accept |} response in
    let response := done_with_headers response in
    let response := read_in_body "" response in
    Ok response.

End HTTPMessage.

(** ** WebSocket messages and frames *)

Module WSMessage.
Inductive Type_ : Type := Text | Binary | Close | Ping | Pong.
Record t : Type := { type : Type_; payload : string }.
End WSMessage.

Module WSFrame.
Inductive OpCode : Type := Continuation | Text | Binary | Close | Ping | Pong.
Record t : Type := { fin : bool; opcode : OpCode; payload : string }.
End WSFrame.

(** ** Collaborators

    The two parsers and the two serialisers live in other files of the
    repository; the server only relies on their interfaces.  A decoder
    consumes bytes and hands back what it completed. *)

Class Collaborators : Type := {
  (** how HTTPMessage compares header names *)
  equivalent_strings : string -> string -> bool;
  (** HTTPRequestParser: bytes in, complete requests out; may throw *)
  http_decoder : Type;
  http_decoder_start : http_decoder;
  http_decode : http_decoder -> string -> result (http_decoder * list HTTPRequest);
  (** WSMessageParser: bytes in, complete messages out; the third component
      is the exception thrown on a protocol violation, if any *)
  ws_decoder : Type;
  ws_decoder_start : ws_decoder;
  ws_decode : ws_decoder -> string -> ws_decoder * list WSMessage.t * option exn;
  (** WSFrame::to_string and HTTPResponse::str *)
  to_string : WSFrame.t -> string;
  str : HTTPResponse -> string
}.

(** ** Sockets *)

Definition Address : Type := string.

Inductive SocketType : Type := TCPSocket | NBSecureSocket.

(** Modelled from the spec: the transport (socket.hh and nb_secure_socket.hh
    are not among the sources).  A socket carries what its peer and the
    kernel will do: the results of the reads to come and, for each write to
    come, how many bytes the kernel has room for. *)
Record Socket : Type := {
  peer_address : Address;
  incoming : list string;
  room : list nat;
  (** bytes handed to the kernel so far *)
  wire : string;
  (** NBSecureSocket only: buffers taken by [ezwrite] and not yet sent *)
  write_buffer : list string
}.

(** [erase(0, n)] *)
Definition erase_front (n : nat) (s : string) : string :=
  String.substring n (String.length s - n) s.

(** [read()] / [ezread()]: the bytes available now; empty at end of stream. *)
Definition Socket_read (sock : Socket) : string * Socket :=
  match incoming sock with
  | [] => ("", sock)
  | data :: later =>
      (data, {| peer_address := peer_address sock; incoming := later;
                room := room sock; wire := wire sock;
                write_buffer := write_buffer sock |})
  end.

(** [write(buffer, false)]: one write; the result is how far the returned
    iterator stands from the start of [buffer]. *)
Definition Socket_write (buffer : string) (sock : Socket) : nat * Socket :=
  let n := Nat.min (hd 0 (room sock)) (String.length buffer) in
  (n, {| peer_address := peer_address sock; incoming := incoming sock;
         room := tl (room sock); wire := wire sock +:+ substr buffer 0 n;
         write_buffer := write_buffer sock |}).

Definition Socket_ezwrite (buffer : string) (sock : Socket) : Socket :=
  {| peer_address := peer_address sock; incoming := incoming sock;
     room := room sock; wire := wire sock;
     write_buffer := write_buffer sock ++ [buffer] |}.

Definition Socket_clear_buffer (sock : Socket) : Socket :=
  {| peer_address := peer_address sock; incoming := incoming sock;
     room := room sock; wire := wire sock; write_buffer := [] |}.

(** The secure session sends the oldest buffer it holds. *)
Definition Socket_flush (sock : Socket) : Socket :=
  match write_buffer sock with
  | [] => sock
  | buffer :: later =>
      {| peer_address := peer_address sock; incoming := incoming sock;
         room := room sock; wire := wire sock +:+ buffer;
         write_buffer := later |}
  end.

(** [unsigned int] arithmetic *)
Definition uint_add (a b : N) : N := ((a + b) mod 2 ^ 32)%N.

Definition total_size (buffers : list string) : N :=
  fold_left (fun total buffer => uint_add total (N.of_nat (String.length buffer)))
            buffers 0%N.

Definition Socket_buffer_bytes (sock : Socket) : N := total_size (write_buffer sock).

(** ** The server *)

Inductive State : Type := NotConnected | Connecting | Connected | Closing | Closed.

Definition State_eqb (a b : State) : bool :=
  match a, b with
  | NotConnected, NotConnected | Connecting, Connecting | Connected, Connected
  | Closing, Closing | Closed, Closed => true
  | _, _ => false
  end.

(** Poller::Action::Result::Type *)
Inductive ResultType : Type := Continue | Exit | Cancel | CancelAll.

(** Which call site handed a frame to [queue_frame]: book-keeping of the
    model, absent from the source. *)
Inductive Origin : Type :=
| by_application
| by_close_connection
| by_close_echo
| by_pong.

(** The application's callbacks, recorded when they are invoked. *)
Inductive Upcall : Type :=
| open_callback (connection_id : N)
| message_callback (connection_id : N) (message : WSMessage.t)
| close_callback (connection_id : N).

Definition MAX_CONNECTION_NUM : nat := 60.

Section Server.

Context {E : Collaborators}.

(** Modelled from the spec: the parsers' queues ([parse], [empty], [front],
    [pop]); the decoding itself is the collaborator's. *)
Record HTTPRequestParser : Type := {
  http_pending : http_decoder;
  complete_requests : list HTTPRequest
}.

Record WSMessageParser : Type := {
  ws_pending : ws_decoder;
  complete_messages : list WSMessage.t
}.

Definition HTTPRequestParser_parse (data : string) (p : HTTPRequestParser)
  : result HTTPRequestParser :=
  '(pending, done) ← http_decode (http_pending p) data;
  Ok {| http_pending := pending; complete_requests := complete_requests p ++ done |}.

Definition HTTPRequestParser_pop (p : HTTPRequestParser) : HTTPRequestParser :=
  {| http_pending := http_pending p; complete_requests := tl (complete_requests p) |}.

Definition WSMessageParser_parse (data : string) (p : WSMessageParser)
  : WSMessageParser * option exn :=
  let '(pending, done, thrown) := ws_decode (ws_pending p) data in
  ({| ws_pending := pending; complete_messages := complete_messages p ++ done |},
   thrown).

Definition WSMessageParser_pop (p : WSMessageParser) : WSMessageParser :=
  {| ws_pending := ws_pending p; complete_messages := tl (complete_messages p) |}.

Record Connection : Type := {
  socket : Socket;
  state : State;
  ws_handshake_parser : HTTPRequestParser;
  ws_message_parser : WSMessageParser;
  send_buffer : list string;
  (** book-keeping: every frame [queue_frame] appended, oldest first *)
  queued : list (Origin * WSFrame.t)
}.

Definition set_socket (x : Socket) (c : Connection) : Connection :=
  {| socket := x; state := state c; ws_handshake_parser := ws_handshake_parser c;
     ws_message_parser := ws_message_parser c; send_buffer := send_buffer c;
     queued := queued c |}.

Definition set_state (x : State) (c : Connection) : Connection :=
  {| socket := socket c; state := x; ws_handshake_parser := ws_handshake_parser c;
     ws_message_parser := ws_message_parser c; send_buffer := send_buffer c;
     queued := queued c |}.

Definition set_ws_handshake_parser (x : HTTPRequestParser) (c : Connection) : Connection :=
  {| socket := socket c; state := state c; ws_handshake_parser := x;
     ws_message_parser := ws_message_parser c; send_buffer := send_buffer c;
     queued := queued c |}.

Definition set_ws_message_parser (x : WSMessageParser) (c : Connection) : Connection :=
  {| socket := socket c; state := state c; ws_handshake_parser := ws_handshake_parser c;
     ws_message_parser := x; send_buffer := send_buffer c; queued := queued c |}.

Definition set_send_buffer (x : list string) (c : Connection) : Connection :=
  {| socket := socket c; state := state c; ws_handshake_parser := ws_handshake_parser c;
     ws_message_parser := ws_message_parser c; send_buffer := x; queued := queued c |}.

Definition note_queued (who : Origin) (frame : WSFrame.t) (c : Connection) : Connection :=
  {| socket := socket c; state := state c; ws_handshake_parser := ws_handshake_parser c;
     ws_message_parser := ws_message_parser c; send_buffer := send_buffer c;
     queued := queued c ++ [(who, frame)] |}.

(** [send_buffer.emplace_back(bytes)] *)
Definition emplace_back (bytes : string) (c : Connection) : Connection :=
  set_send_buffer (send_buffer c ++ [bytes]) c.

(** [Connection::Connection]: a fresh connection around an accepted socket. *)
Definition new_connection (sock : Socket) : Connection :=
  {| socket := sock; state := NotConnected;
     ws_handshake_parser := {| http_pending := http_decoder_start; complete_requests := [] |};
     ws_message_parser := {| ws_pending := ws_decoder_start; complete_messages := [] |};
     send_buffer := []; queued := [] |}.

(** [Connection::read] (ws_server.cc, lines 117-127) *)
Definition Connection_read (c : Connection) : string * Connection :=
  let '(data, sock) := Socket_read (socket c) in (data, set_socket sock c).

(** [WSServer<TCPSocket>::Connection::write] (lines 129-151): the loop runs
    once per buffer it pops. *)
Fixpoint write_plain (send_buffer : list string) (sock : Socket)
  : list string * Socket :=
  match send_buffer with
  | [] => ([], sock)
  | buffer :: rest =>
      let '(it, sock') := Socket_write buffer sock in
      if negb (it =? String.length buffer)%nat
      then (erase_front it buffer :: rest, sock')
      else write_plain rest sock'
  end.

(** [WSServer<NBSecureSocket>::Connection::write] (lines 153-160) *)
Fixpoint write_secure (send_buffer : list string) (sock : Socket)
  : list string * Socket :=
  match send_buffer with
  | [] => ([], sock)
  | buffer :: rest => write_secure rest (Socket_ezwrite buffer sock)
  end.

Definition Connection_write (T : SocketType) (c : Connection) : Connection :=
  let '(buffers, sock) :=
    match T with
    | TCPSocket => write_plain (send_buffer c) (socket c)
    | NBSecureSocket => write_secure (send_buffer c) (socket c)
    end in
  set_socket sock (set_send_buffer buffers c).

(** [Connection::buffer_bytes] (lines 162-172) *)
Definition Connection_buffer_bytes (c : Connection) : N := total_size (send_buffer c).

(** Modelled from the spec: [Connection::data_to_send] is declared in
    ws_server.hh, which is not among the sources: true iff the send buffer
    is non-empty or the transport holds buffered bytes. *)
Definition data_to_send (c : Connection) : bool :=
  negb (match send_buffer c with [] => true | _ => false end)
  || (0 <? Socket_buffer_bytes (socket c))%N.

Record WSServer : Type := {
  listener_addr_ : Address;
  active_ : bool;
  last_connection_id_ : N;
  connections_ : gmap N Connection;
  closed_connections_ : gset N;
  (** book-keeping: the callbacks invoked so far, oldest first *)
  upcalls : list Upcall
}.

(** *** Stateful code: a state and exception monad over the server *)

Definition M (A : Type) : Type := WSServer -> result (A * WSServer).

Definition ret {A} (a : A) : M A := fun s => Ok (a, s).

Definition bind {A B} (m : M A) (k : A -> M B) : M B := fun s =>
  match m s with
  | Ok (a, s') => k a s'
  | Throw e => Throw e
  end.

Definition throw {A} (e : exn) : M A := fun _ => Throw e.

Definition lift {A} (r : result A) : M A := fun s =>
  match r with
  | Ok a => Ok (a, s)
  | Throw e => Throw e
  end.

Definition get : M WSServer := fun s => Ok (s, s).

Definition modify (f : WSServer -> WSServer) : M unit := fun s => Ok (tt, f s).

End Server.

Notation "x <- m ;; k" := (bind m (fun x => k))
  (at level 100, m at next level, right associativity,
   format "'[' x  <-  m ;;  '/' k ']'").
Notation "m ;; k" := (bind m (fun _ => k))
  (at level 100, right associativity, format "'[' m ;;  '/' k ']'").

Section Methods.

Context {E : Collaborators}.

(** The transport the server is instantiated with: [WSServer<TCPSocket>] or
    [WSServer<NBSecureSocket>]. *)
Variable T : SocketType.

Definition set_active (x : bool) (s : WSServer) : WSServer :=
  {| listener_addr_ := listener_addr_ s; active_ := x;
     last_connection_id_ := last_connection_id_ s; connections_ := connections_ s;
     closed_connections_ := closed_connections_ s; upcalls := upcalls s |}.

Definition set_last_connection_id (x : N) (s : WSServer) : WSServer :=
  {| listener_addr_ := listener_addr_ s; active_ := active_ s;
     last_connection_id_ := x; connections_ := connections_ s;
     closed_connections_ := closed_connections_ s; upcalls := upcalls s |}.

Definition set_connections (x : gmap N Connection) (s : WSServer) : WSServer :=
  {| listener_addr_ := listener_addr_ s; active_ := active_ s;
     last_connection_id_ := last_connection_id_ s; connections_ := x;
     closed_connections_ := closed_connections_ s; upcalls := upcalls s |}.

Definition set_closed_connections (x : gset N) (s : WSServer) : WSServer :=
  {| listener_addr_ := listener_addr_ s; active_ := active_ s;
     last_connection_id_ := last_connection_id_ s; connections_ := connections_ s;
     closed_connections_ := x; upcalls := upcalls s |}.

Definition note_upcall (u : Upcall) (s : WSServer) : WSServer :=
  {| listener_addr_ := listener_addr_ s; active_ := active_ s;
     last_connection_id_ := last_connection_id_ s; connections_ := connections_ s;
     closed_connections_ := closed_connections_ s; upcalls := upcalls s ++ [u] |}.

(** [connections_.at(id)]; also the reference [conn] a poller action holds,
    which is read through the table. *)
Definition conn_at (id : N) : M Connection := fun s =>
  match connections_ s !! id with
  | Some conn => Ok (conn, s)
  | None => Throw out_of_range
  end.

(** An assignment through a reference into the table. *)
Definition update (id : N) (f : Connection -> Connection) : M unit :=
  modify (fun s => set_connections (alter f id (connections_ s)) s).

Definition upcall (u : Upcall) : M unit := modify (note_upcall u).

(** [connections_.emplace(id, conn)]: nothing is inserted when the key is
    taken. *)
Definition emplace (id : N) (conn : Connection) : M unit :=
  modify (fun s =>
    match connections_ s !! id with
    | Some _ => s
    | None => set_connections (<[id := conn]> (connections_ s)) s
    end).

(** [queue_frame] (lines 369-384) *)
Definition queue_frame (who : Origin) (connection_id : N) (frame : WSFrame.t) : M bool :=
  conn <- conn_at connection_id ;;
  if negb (State_eqb (state conn) Connected) then
    (* not connected; cannot queue the frame *)
    ret false
  else
    update connection_id (fun c => note_queued who frame (emplace_back (to_string frame) c)) ;;
    ret true.

(** [clear_buffer] (lines 386-399), both specialisations *)
Definition clear_buffer (connection_id : N) : M unit :=
  _ <- conn_at connection_id ;;
  match T with
  | TCPSocket => update connection_id (set_send_buffer [])
  | NBSecureSocket =>
      update connection_id (set_send_buffer []) ;;
      update connection_id (fun c => set_socket (Socket_clear_buffer (socket c)) c)
  end.

(** [close_connection] (lines 401-414) *)
Definition close_connection (connection_id : N) : M unit :=
  conn <- conn_at connection_id ;;
  if negb (State_eqb (state conn) Connected) then
    (* not connected; cannot close the connection *)
    ret tt
  else
    let close_frame :=
      {| WSFrame.fin := true; WSFrame.opcode := WSFrame.Close; WSFrame.payload := "" |} in
    _ <- queue_frame by_close_connection connection_id close_frame ;;
    update connection_id (set_state Closing).

(** [drop_connection] (lines 416-429) *)
Definition drop_connection (connection_id : N) : M unit :=
  s <- get ;;
  match connections_ s !! connection_id with
  | None =>
      (* connection does not exist any longer *)
      ret tt
  | Some _ =>
      update connection_id (set_state Closed) ;;
      upcall (close_callback connection_id) ;;
      modify (fun s => set_closed_connections ({[connection_id]} ∪ closed_connections_ s) s)
  end.

(** [peer_addr] (lines 431-437) *)
Definition peer_addr (connection_id : N) : M Address :=
  conn <- conn_at connection_id ;;
  ret (peer_address (socket conn)).

(** [buffer_bytes] (lines 439-456), both specialisations *)
Definition buffer_bytes (conn_id : N) : M N :=
  conn <- conn_at conn_id ;;
  match T with
  | TCPSocket => ret (Connection_buffer_bytes conn)
  | NBSecureSocket =>
      let total_size := Connection_buffer_bytes conn in
      let total_size := uint_add total_size (Socket_buffer_bytes (socket conn)) in
      ret total_size
  end.

(** *** The poller actions of one connection (lines 198-349) *)

(** The read action's callback. *)
Definition read_callback (conn_id : N) : M ResultType :=
  conn <- conn_at conn_id ;;
  let '(data, conn') := Connection_read conn in
  update conn_id (fun _ => conn') ;;
  if String.eqb data "" then
    drop_connection conn_id ;;
    ret CancelAll
  else
    conn <- conn_at conn_id ;;
    match state conn with
    | NotConnected =>
        parser <- lift (HTTPRequestParser_parse data (ws_handshake_parser conn)) ;;
        update conn_id (set_ws_handshake_parser parser) ;;
        match complete_requests parser with
        | [] => ret Continue
        | request :: _ =>
            update conn_id (set_ws_handshake_parser (HTTPRequestParser_pop parser)) ;;
            response <- lift (create_handshake_response equivalent_strings request) ;;
            update conn_id (emplace_back (str response)) ;;
            (* only continue with status code of 101 *)
            if negb (String.eqb (status_code response) "101") then
              drop_connection conn_id ;;
              ret CancelAll
            else
              update conn_id (set_state Connecting) ;;
              ret Continue
        end
    | Connected =>
        let '(parser, thrown) := WSMessageParser_parse data (ws_message_parser conn) in
        update conn_id (set_ws_message_parser parser) ;;
        match thrown with
        | Some _ =>
            (* close the connection if received an invalid message *)
            close_connection conn_id ;;
            ret Continue
        | None =>
            match complete_messages parser with
            | [] => ret Continue
            | message :: _ =>
                update conn_id (set_ws_message_parser (WSMessageParser_pop parser)) ;;
                match WSMessage.type message with
                | WSMessage.Text | WSMessage.Binary =>
                    upcall (message_callback conn_id message) ;;
                    ret Continue
                | WSMessage.Close =>
                    let close_frame :=
                      {| WSFrame.fin := true; WSFrame.opcode := WSFrame.Close;
                         WSFrame.payload := WSMessage.payload message |} in
                    _ <- queue_frame by_close_echo conn_id close_frame ;;
                    update conn_id (set_state Closed) ;;
                    ret Continue
                | WSMessage.Ping =>
                    let pong :=
                      {| WSFrame.fin := true; WSFrame.opcode := WSFrame.Pong;
                         WSFrame.payload := "" |} in
                    _ <- queue_frame by_pong conn_id pong ;;
                    ret Continue
                | WSMessage.Pong => ret Continue
                end
            end
        end
    | Closing =>
        let '(parser, thrown) := WSMessageParser_parse data (ws_message_parser conn) in
        update conn_id (set_ws_message_parser parser) ;;
        match thrown with
        | Some _ =>
            (* already closing connection, so ignore invalid messages *)
            ret Continue
        | None =>
            match complete_messages parser with
            | [] => ret Continue
            | message :: _ =>
                update conn_id (set_ws_message_parser (WSMessageParser_pop parser)) ;;
                match WSMessage.type message with
                | WSMessage.Close =>
                    update conn_id (set_state Closed) ;;
                    update conn_id (set_send_buffer []) ;;
                    (* we don't want to poll on this socket anymore *)
                    drop_connection conn_id ;;
                    ret CancelAll
                | _ =>
                    (* all the other message types are ignored *)
                    ret Continue
                end
            end
        end
    | Connecting | Closed =>
        (* assert(false): will not happen *)
        throw assertion_failure
    end.

(** The read action's predicate (lines 305-309). *)
Definition read_predicate (conn : Connection) : bool :=
  negb (State_eqb (state conn) Connecting) && negb (State_eqb (state conn) Closed).

(** The write action's callback (lines 313-340). *)
Definition write_callback (conn_id : N) : M ResultType :=
  conn <- conn_at conn_id ;;
  (if State_eqb (state conn) Connecting then
     (if data_to_send conn then update conn_id (Connection_write T) else ret tt) ;;
     conn <- conn_at conn_id ;;
     if negb (data_to_send conn) then
       (* if we've sent the whole handshake response *)
       update conn_id (set_state Connected) ;;
       upcall (open_callback conn_id)
     else ret tt
   else if (State_eqb (state conn) Connected || State_eqb (state conn) Closing
            || State_eqb (state conn) Closed) && data_to_send conn then
     update conn_id (Connection_write T)
   else ret tt) ;;
  conn <- conn_at conn_id ;;
  if State_eqb (state conn) Closed && negb (data_to_send conn) then
    drop_connection conn_id ;;
    ret CancelAll
  else ret Continue.

(** The write action's predicate (lines 341-348). *)
Definition write_predicate (conn : Connection) : bool :=
  State_eqb (state conn) Connecting
  || ((State_eqb (state conn) Connected || State_eqb (state conn) Closing
       || State_eqb (state conn) Closed) && data_to_send conn).

(** *** The listener (lines 174-360) *)

(** [init_listener_socket]: a fresh listening socket and its action. *)
Definition init_listener_socket : M unit := modify (set_active true).

(** The listener action's callback: one client is accepted. *)
Definition accept_callback (client : Socket) : M ResultType :=
  s <- get ;;
  let conn_id := last_connection_id_ s in
  modify (set_last_connection_id ((conn_id + 1) mod 2 ^ 64)%N) ;;
  emplace conn_id (new_connection client) ;;
  _ <- conn_at conn_id ;;
  (* the two actions of this connection are added to the poller here *)
  s <- get ;;
  if (MAX_CONNECTION_NUM <=? size (connections_ s))%nat then
    (* listener_socket_.close() *)
    modify (set_active false) ;;
    ret CancelAll
  else ret Continue.

(** [WSServer::WSServer] (lines 362-367); the counter's initial value is
    set in ws_server.hh and is taken to be 0. *)
Definition WSServer_new (listener_addr : Address) : WSServer :=
  {| listener_addr_ := listener_addr; active_ := true; last_connection_id_ := 0%N;
     connections_ := ∅; closed_connections_ := ∅; upcalls := [] |}.

(** *** The event loop

    Modelled from the spec: the poller (poller.hh is not among the sources).
    One [poll] dispatches the actions that became ready, in some order; the
    application's calls into the server, made from inside its callbacks or
    between two iterations, are steps of the same sequence.  An action
    exists only while the object it was registered for does: the listener's
    while the listener is open, a connection's while the connection is in
    the table. *)

Inductive Event : Type :=
| listener_ready (client : Socket)
| read_ready (conn_id : N)
| write_ready (conn_id : N)
| session_progress (conn_id : N)
| call_queue_frame (connection_id : N) (frame : WSFrame.t)
| call_close_connection (connection_id : N)
| call_clear_buffer (connection_id : N).

Definition when_registered (conn_id : N) (callback : M ResultType) : M unit :=
  s <- get ;;
  match connections_ s !! conn_id with
  | Some _ => _ <- callback ;; ret tt
  | None => ret tt
  end.

Definition dispatch (ev : Event) : M unit :=
  match ev with
  | listener_ready client =>
      s <- get ;;
      if active_ s then _ <- accept_callback client ;; ret tt else ret tt
  | read_ready conn_id => when_registered conn_id (read_callback conn_id)
  | write_ready conn_id => when_registered conn_id (write_callback conn_id)
  | session_progress conn_id =>
      match T with
      | TCPSocket => ret tt
      | NBSecureSocket => update conn_id (fun c => set_socket (Socket_flush (socket c)) c)
      end
  | call_queue_frame connection_id frame =>
      _ <- queue_frame by_application connection_id frame ;; ret tt
  | call_close_connection connection_id => close_connection connection_id
  | call_clear_buffer connection_id => clear_buffer connection_id
  end.

Fixpoint poll (ready : list Event) : M unit :=
  match ready with
  | [] => ret tt
  | ev :: later => dispatch ev ;; poll later
  end.

(** The garbage collection of [loop_once] (lines 463-468). *)
Definition erase_all (ids : list N) (table : gmap N Connection) : gmap N Connection :=
  fold_left (fun table conn_id => delete conn_id table) ids table.

Definition collect : M unit :=
  modify (fun s =>
    set_connections (erase_all (elements (closed_connections_ s)) (connections_ s)) s) ;;
  modify (set_closed_connections ∅).

(** [loop_once] (lines 458-475) *)
Definition loop_once (ready : list Event) : M unit :=
  poll ready ;;
  (* let's garbage collect the closed connections *)
  collect ;;
  s <- get ;;
  if negb (active_ s) && (size (connections_ s) <? MAX_CONNECTION_NUM)%nat then
    init_listener_socket
  else ret tt.

(** The states the server passes through: after construction, and after
    each iteration of [loop]. *)
Inductive reachable : WSServer -> Prop :=
| reachable_new listener_addr : reachable (WSServer_new listener_addr)
| reachable_loop_once s ready s' :
    reachable s -> loop_once ready s = Ok (tt, s') -> reachable s'.

(** The states inside an iteration, between two callbacks. *)
Inductive reachable_in_poll : WSServer -> Prop :=
| in_poll_start s : reachable s -> reachable_in_poll s
| in_poll_dispatch s ev s' :
    reachable_in_poll s -> dispatch ev s = Ok (tt, s') -> reachable_in_poll s'.

End Methods.

(** ** Reference collaborators

    One concrete choice of the collaborators, used to run the server on
    concrete inputs: an HTTP request-head decoder, a decoder for
    unfragmented masked frames with a 7-bit length (anything else is
    reported as a protocol violation), and the serialisers of RFC 6455
    frames and of HTTP responses. *)

Module Reference.

Definition CRLF : string := String (ascii_of_nat 13) (String (ascii_of_nat 10) "").

(** The pieces of [s] between occurrences of [sep]. *)
Fixpoint split_on (fuel : nat) (sep s : string) : list string :=
  match fuel with
  | O => [s]
  | S fuel' =>
      match find s sep with
      | None => [s]
      | Some i =>
          substr s 0 i :: split_on fuel' sep (substr_from s (i + String.length sep))
      end
  end.

Definition parse_header (line : string) : HTTPHeader :=
  match find line ": " with
  | Some i => {| key := substr line 0 i; value := substr_from line (i + 2) |}
  | None => {| key := line; value := "" |}
  end.

Definition parse_head (head : string) : HTTPRequest :=
  match split_on (String.length head) CRLF head with
  | [] => {| first_line := ""; headers := []; body := "" |}
  | line :: rest =>
      {| first_line := line; headers := List.map parse_header rest; body := "" |}
  end.

(** Requests end at the first empty line; the bytes after it wait. *)
Fixpoint decode_requests (fuel : nat) (buffer : string) : string * list HTTPRequest :=
  match fuel with
  | O => (buffer, [])
  | S fuel' =>
      match find buffer (CRLF +:+ CRLF) with
      | None => (buffer, [])
      | Some i =>
          let '(rest, later) := decode_requests fuel' (substr_from buffer (i + 4)) in
          (rest, parse_head (substr buffer 0 i) :: later)
      end
  end.

Definition byte (c : ascii) : N := N_of_ascii c.

Definition unmask (mask payload : string) : string :=
  string_of_list_ascii
    (imap (fun i c =>
             match String.get (i mod 4) mask with
             | Some m => ascii_of_N (N.lxor (byte c) (byte m))
             | None => c
             end)
          (list_ascii_of_string payload)).

Definition message_type (opcode : N) : option WSMessage.Type_ :=
  if (opcode =? 1)%N then Some WSMessage.Text
  else if (opcode =? 2)%N then Some WSMessage.Binary
  else if (opcode =? 8)%N then Some WSMessage.Close
  else if (opcode =? 9)%N then Some WSMessage.Ping
  else if (opcode =? 10)%N then Some WSMessage.Pong
  else None.

Fixpoint decode_messages (fuel : nat) (buffer : string)
  : string * list WSMessage.t * option exn :=
  match fuel with
  | O => (buffer, [], None)
  | S fuel' =>
      match buffer with
      | String b0 (String b1 after) =>
          let len := N.to_nat (byte b1 mod 128) in
          if (byte b0 <? 128)%N || (byte b1 <? 128)%N || (126 <=? len)%nat then
            (buffer, [], Some (runtime_error "unsupported or unmasked frame"))
          else
            match message_type (byte b0 mod 16) with
            | None => (buffer, [], Some (runtime_error "unknown opcode"))
            | Some type =>
                if (String.length after <? 4 + len)%nat then (buffer, [], None)
                else
                  let message :=
                    {| WSMessage.type := type;
                       WSMessage.payload := unmask (substr after 0 4) (substr after 4 len) |} in
                  let '(rest, later, thrown) :=
                    decode_messages fuel' (substr_from after (4 + len)) in
                  (rest, message :: later, thrown)
            end
      | _ => (buffer, [], None)
      end
  end.

Definition opcode_number (op : WSFrame.OpCode) : N :=
  match op with
  | WSFrame.Continuation => 0
  | WSFrame.Text => 1
  | WSFrame.Binary => 2
  | WSFrame.Close => 8
  | WSFrame.Ping => 9
  | WSFrame.Pong => 10
  end.

Fixpoint be_chars (width : nat) (x : N) : string :=
  match width with
  | O => ""
  | S w => String (ascii_of_N ((x / 256 ^ N.of_nat w) mod 256)) (be_chars w x)
  end.

(** An unmasked frame, as the server sends them. *)
Definition frame_to_string (frame : WSFrame.t) : string :=
  let len := N.of_nat (String.length (WSFrame.payload frame)) in
  let b0 := ((if WSFrame.fin frame then 128 else 0) + opcode_number (WSFrame.opcode frame))%N in
  String (ascii_of_N b0)
    ((if (len <? 126)%N then be_chars 1 len
      else if (len <? 65536)%N then String (ascii_of_N 126) (be_chars 2 len)
      else String (ascii_of_N 127) (be_chars 8 len))
     +:+ WSFrame.payload frame).

Definition response_to_string (r : HTTPResponse) : string :=
  response_first_line r +:+ CRLF
  +:+ fold_right (fun h rest => key h +:+ ": " +:+ value h +:+ CRLF +:+ rest)
                 CRLF (response_headers r)
  +:+ response_body r.

#[export] Instance collaborators : Collaborators := {|
  equivalent_strings := String.eqb;
  http_decoder := string;
  http_decoder_start := "";
  http_decode := fun pending data =>
    Ok (decode_requests (String.length (pending +:+ data)) (pending +:+ data));
  ws_decoder := string;
  ws_decoder_start := "";
  ws_decode := fun pending data =>
    decode_messages (String.length (pending +:+ data)) (pending +:+ data);
  to_string := frame_to_string;
  str := response_to_string
|}.

(** A client's handshake, as one read delivers it. *)
Definition handshake_bytes (request_line : string) (origin : bool) : string :=
  request_line +:+ CRLF
  +:+ "Host: example.org" +:+ CRLF
  +:+ "Connection: Upgrade" +:+ CRLF
  +:+ "Upgrade: websocket" +:+ CRLF
  +:+ "Sec-WebSocket-Key: dGhlIHNhbXBsZSBub25jZQ==" +:+ CRLF
  +:+ (if origin then "Origin: http://example.org" +:+ CRLF else "")
  +:+ CRLF.

(** A masked client frame with a short payload and the mask 1 2 3 4. *)
Definition client_frame (opcode : N) (payload : string) : string :=
  let mask := string_of_list_ascii (List.map ascii_of_N [1; 2; 3; 4]%N) in
  String (ascii_of_N (128 + opcode))
    (String (ascii_of_N (128 + N.of_nat (String.length payload)))
       (mask +:+ unmask mask payload)).

Definition client (reads : list string) (room : list nat) : Socket :=
  {| peer_address := "192.0.2.1:4000"; incoming := reads; room := room;
     wire := ""; write_buffer := [] |}.

End Reference.

(** ** Definitions used to state the properties *)

(** *** Sample requests and the responses of the handshake *)

(** A request whose method token is [GETX]; everything else is in order. *)
Definition getx_request : HTTPRequest :=
  {| first_line := "GETX /ws HTTP/1.1";
     headers := [ {| key := "Host"; value := "example.org" |};
                  {| key := "Connection"; value := "Upgrade" |};
                  {| key := "Upgrade"; value := "websocket" |};
                  {| key := "Sec-WebSocket-Key"; value := "dGhlIHNhbXBsZSBub25jZQ==" |};
                  {| key := "Origin"; value := "http://example.org" |} ];
     body := "" |}.

(** The three responses the responder can build. *)
Definition error_response (request : HTTPRequest) (line : string) : HTTPResponse :=
  {| response_request := Some request;
     response_first_line := line;
     response_headers := [ {| key := "Content-Length"; value := "0" |};
                           {| key := "Connection"; value := "close" |} ];
     headers_done := true;
     response_body := "" |}.

Definition upgrade_response (request : HTTPRequest) (sec_accept : string) : HTTPResponse :=
  {| response_request := Some request;
     response_first_line := "HTTP/1.1 101 Switching Protocols";
     response_headers := [ {| key := "Connection"; value := "Upgrade" |};
                           {| key := "Upgrade"; value := "websocket" |};
                           {| key := "Sec-WebSocket-Accept"; value := sec_accept |} ];
     headers_done := true;
     response_body := "" |}.

(** A well-formed upgrade request without its [Origin] header. *)
Definition no_origin_request : HTTPRequest :=
  {| first_line := "GET /ws HTTP/1.1";
     headers := [ {| key := "Host"; value := "example.org" |};
                  {| key := "Connection"; value := "keep-alive, Upgrade" |};
                  {| key := "Upgrade"; value := "websocket" |};
                  {| key := "Sec-WebSocket-Key"; value := "dGhlIHNhbXBsZSBub25jZQ==" |} ];
     body := "" |}.

(** The same request with an [Origin] header. *)
Definition sample_request : HTTPRequest :=
  {| first_line := "GET /ws HTTP/1.1";
     headers := headers no_origin_request
                ++ [ {| key := "Origin"; value := "http://example.org" |} ];
     body := "" |}.

(** *** Bytes, callbacks and Close frames *)

Definition concat_all (buffers : list string) : string :=
  fold_right String.append "" buffers.

(** How often [close_callback id] was invoked. *)
Definition close_upcalls (id : N) (us : list Upcall) : nat :=
  List.length
    (List.filter (fun u => match u with
                           | close_callback j => N.eqb j id
                           | _ => false
                           end) us).

Definition is_server_close (entry : Origin * WSFrame.t) : bool :=
  match entry with
  | (by_close_connection, frame) | (by_close_echo, frame) =>
      match WSFrame.opcode frame with
      | WSFrame.Close => true
      | _ => false
      end
  | _ => false
  end.

(** The Close frames the server itself appended for a connection: those of
    [close_connection] and of the echo in the read action. *)
Definition server_closes {E : Collaborators} (conn : Connection) : nat :=
  List.length (List.filter is_server_close (queued conn)).

(** All the Close frames appended for a connection, the application's
    included. *)
Definition close_frames {E : Collaborators} (conn : Connection) : nat :=
  List.length
    (List.filter (fun entry : Origin * WSFrame.t =>
                    match WSFrame.opcode (snd entry) with
                    | WSFrame.Close => true
                    | _ => false
                    end)
                 (queued conn)).

Definition close_budget (st : State) : nat :=
  match st with
  | Closing | Closed => 1
  | NotConnected | Connecting | Connected => 0
  end.

Definition close_frames_ok {E : Collaborators} (conn : Connection) : Prop :=
  server_closes conn <= close_budget (state conn).

(** [s'] has the listener flag and the connections of [s], each connection
    possibly further along. *)
Definition evolves {E : Collaborators} (s s' : WSServer) : Prop :=
  active_ s' = active_ s
  /\ dom (connections_ s') = dom (connections_ s)
  /\ forall id conn', connections_ s' !! id = Some conn' ->
       exists conn, connections_ s !! id = Some conn
                    /\ (close_frames_ok conn -> close_frames_ok conn').

(** The listener is open only below the cap. *)
Definition listener_ok {E : Collaborators} (s : WSServer) : Prop :=
  active_ s = true -> size (connections_ s) < MAX_CONNECTION_NUM.

Definition table_ok {E : Collaborators} (s : WSServer) : Prop :=
  forall id conn, connections_ s !! id = Some conn -> close_frames_ok conn.

(** The flag tells exactly whether there is room. *)
Definition listener_exact {E : Collaborators} (s : WSServer) : Prop :=
  active_ s = true <-> size (connections_ s) < MAX_CONNECTION_NUM.

(** *** The read action as the specification words it *)

(** What the specification has the read action do with one message. *)
Definition handle_message {E : Collaborators} (conn_id : N) (message : WSMessage.t)
  : M unit :=
  match WSMessage.type message with
  | WSMessage.Text | WSMessage.Binary => upcall (message_callback conn_id message)
  | WSMessage.Close =>
      _ <- queue_frame by_close_echo conn_id
             {| WSFrame.fin := true; WSFrame.opcode := WSFrame.Close;
                WSFrame.payload := WSMessage.payload message |} ;;
      update conn_id (set_state Closed)
  | WSMessage.Ping =>
      _ <- queue_frame by_pong conn_id
             {| WSFrame.fin := true; WSFrame.opcode := WSFrame.Pong;
                WSFrame.payload := "" |} ;;
      ret tt
  | WSMessage.Pong => ret tt
  end.

Fixpoint handle_messages {E : Collaborators} (conn_id : N)
         (messages : list WSMessage.t) : M unit :=
  match messages with
  | [] => ret tt
  | message :: later => handle_message conn_id message ;; handle_messages conn_id later
  end.

(** The read action on a Connected connection as the specification words it:
    every message the parser completed is handled, in arrival order, within
    the dispatch.  (Stated for data that is not empty and parses.) *)
Definition read_connected_as_specified {E : Collaborators} (conn_id : N)
  : M ResultType :=
  conn <- conn_at conn_id ;;
  let '(data, conn') := Connection_read conn in
  update conn_id (fun _ => conn') ;;
  let '(parser, _) := WSMessageParser_parse data (ws_message_parser conn') in
  update conn_id
    (set_ws_message_parser {| ws_pending := ws_pending parser; complete_messages := [] |}) ;;
  handle_messages conn_id (complete_messages parser) ;;
  ret Continue.

(** *** Concrete runs *)

Module Scenario.

Import Reference.

Definition fresh : WSServer := WSServer_new "0.0.0.0:8080".

(** The state after some callbacks of one poll. *)
Definition after (ready : list Event) (s : WSServer) : WSServer :=
  match poll TCPSocket ready s with
  | Ok (_, s') => s'
  | Throw _ => s
  end.

(** A client whose handshake arrives in one read (and whose next read, if
    any, delivers [later]). *)
Definition upgrading_client (later : list string) : Socket :=
  client (handshake_bytes "GET /ws HTTP/1.1" true :: later) [1000; 1000; 1000].

Definition handshake : list Event := [read_ready 0%N; write_ready 0%N].

(** Connection 0 is Connected; nothing more will arrive. *)
Definition connected : WSServer :=
  after (listener_ready (upgrading_client []) :: handshake) fresh.

(** Connection 0 is Connected; the next read delivers two Text frames. *)
Definition two_texts_pending : WSServer :=
  after (listener_ready
           (upgrading_client [client_frame 1 "hi" +:+ client_frame 1 "yo"])
         :: handshake) fresh.

Definition text (payload : string) : WSMessage.t :=
  {| WSMessage.type := WSMessage.Text; WSMessage.payload := payload |}.

Definition close_frame : WSFrame.t :=
  {| WSFrame.fin := true; WSFrame.opcode := WSFrame.Close; WSFrame.payload := "" |}.

(** The application queues a Close frame itself, then asks for the close. *)
Definition closed_twice : WSServer :=
  after [call_queue_frame 0%N close_frame; call_close_connection 0%N] connected.

(** The state after one iteration of the loop. *)
Definition after_iteration (ready : list Event) (s : WSServer) : WSServer :=
  match loop_once TCPSocket ready s with
  | Ok (_, s') => s'
  | Throw _ => s
  end.

(** The connection with a given identifier (a fresh one if there is none). *)
Definition connection (id : N) (s : WSServer) : Connection :=
  default (new_connection (client [] [])) (connections_ s !! id).

Definition has_connection (id : N) (s : WSServer) : bool :=
  match connections_ s !! id with
  | Some _ => true
  | None => false
  end.

End Scenario.

(** *** Further definitions used to state properties *)

(** The socket has room for every buffer of the queue, one write each. *)
Fixpoint room_for (buffers : list string) (room : list nat) : Prop :=
  match buffers, room with
  | [], _ => True
  | buffer :: rest, r :: later => String.length buffer <= r /\ room_for rest later
  | _ :: _, [] => False
  end.

(** The frame [close_connection] queues. *)
Definition empty_close_frame : WSFrame.t :=
  {| WSFrame.fin := true; WSFrame.opcode := WSFrame.Close; WSFrame.payload := "" |}.

(** The transitions of a connection's state that one step may make; a state
    may also stay as it is. *)
Definition permitted (from to : State) : bool :=
  match from, to with
  | NotConnected, (NotConnected | Connecting | Closed) => true
  | Connecting, (Connecting | Connected | Closed) => true
  | Connected, (Connected | Closing | Closed) => true
  | Closing, (Closing | Closed) => true
  | Closed, Closed => true
  | _, _ => false
  end.

(** How far along its life a connection is. *)
Definition state_rank (st : State) : nat :=
  match st with
  | NotConnected => 0
  | Connecting => 1
  | Connected => 2
  | Closing => 3
  | Closed => 4
  end.

(** What one callback on connection [id] may tell the application, with the
    state of the connection before and after, and the closed set before and
    after. *)
Inductive outcome (id : N) (before after : State) (closed closed' : gset N)
  : list Upcall -> Prop :=
| outcome_quiet :
    closed' = closed -> outcome id before after closed closed' []
| outcome_dropped :
    closed' = {[id]} ∪ closed -> after = Closed ->
    outcome id before after closed closed' [close_callback id]
| outcome_delivered message :
    closed' = closed -> before = Connected -> after = Connected ->
    WSMessage.type message = WSMessage.Text
    \/ WSMessage.type message = WSMessage.Binary ->
    outcome id before after closed closed' [message_callback id message]
| outcome_opened :
    closed' = closed -> before = Connecting -> after = Connected ->
    outcome id before after closed closed' [open_callback id].

(** The effect of a step that works on connection [id]. *)
Definition works_on {E : Collaborators} (id : N) (s s' : WSServer)
           (us : list Upcall) : Prop :=
  exists conn conn',
    connections_ s !! id = Some conn
    /\ connections_ s' = <[id := conn']> (connections_ s)
    /\ active_ s' = active_ s
    /\ upcalls s' = (upcalls s ++ us)%list
    /\ permitted (state conn) (state conn') = true
    /\ outcome id (state conn) (state conn')
               (closed_connections_ s) (closed_connections_ s') us.

(** *** Further concrete runs *)

Module Example.

Import Reference.

(** A client has been accepted; its handshake is still to be read. *)
Definition accepted : WSServer :=
  Scenario.after [listener_ready (Scenario.upgrading_client [])] Scenario.fresh.

(** The handshake has been read and answered; the response is still to be
    written. *)
Definition connecting : WSServer := Scenario.after [read_ready 0%N] accepted.

(** Connection 0 is Connected; the next read delivers bytes that are no
    frame. *)
Definition violation_pending : WSServer :=
  Scenario.after (listener_ready (Scenario.upgrading_client ["garbage"])
                  :: Scenario.handshake) Scenario.fresh.

(** The application has asked for the close; the client's Close frame is the
    next read. *)
Definition closing : WSServer :=
  Scenario.after
    (listener_ready (Scenario.upgrading_client [client_frame 8 ""])
     :: Scenario.handshake ++ [call_close_connection 0%N])
    Scenario.fresh.

(** The client has gone: connection 0 is dropped and waits for the garbage
    collection. *)
Definition dropped : WSServer := Scenario.after [read_ready 0%N] Scenario.connected.

(** Connection 0 is Connecting, and the client has sent more already. *)
Definition early_data : WSServer :=
  Scenario.after [listener_ready (Scenario.upgrading_client ["x"]); read_ready 0%N]
                 Scenario.fresh.

(** The state after the first iteration, which accepted the client. *)
Definition first_iteration : WSServer :=
  Scenario.after_iteration [listener_ready (Scenario.upgrading_client [])]
                           Scenario.fresh.

Definition text_frame (payload : string) : WSFrame.t :=
  {| WSFrame.fin := true; WSFrame.opcode := WSFrame.Text; WSFrame.payload := payload |}.

(** Whether a call returns. *)
Definition returns {A : Type} (r : result A) : bool :=
  match r with
  | Ok _ => true
  | Throw _ => false
  end.

End Example.

(** * Properties *)

(** ** std::string facts *)

Lemma append_cons (c : ascii) (a b : string) :
  String c a +:+ b = String c (a +:+ b).
Proof. reflexivity. Qed.

Lemma append_empty_r (a : string) : a +:+ "" = a.
Proof.
  induction a as [|x a IH]; [reflexivity|].
  now rewrite append_cons, IH.
Qed.

Lemma append_assoc (a b c : string) : (a +:+ b) +:+ c = a +:+ (b +:+ c).
Proof.
  induction a as [|x a IH]; [reflexivity|].
  now rewrite !append_cons, IH.
Qed.

Lemma substring_all (s : string) : String.substring 0 (String.length s) s = s.
Proof. induction s as [|c s IH]; simpl; [reflexivity | now rewrite IH]. Qed.

Lemma substring_split (n : nat) (s : string) :
  n <= String.length s ->
  String.substring 0 n s +:+ String.substring n (String.length s - n) s = s.
Proof.
  revert n. induction s as [|c s IH]; intros n Hn; simpl in *.
  - destruct n; [reflexivity | lia].
  - destruct n as [|n]; simpl.
    + rewrite substring_all. reflexivity.
    + rewrite append_cons. f_equal. apply IH. lia.
Qed.

(** ** The handshake *)

Section HandshakeFacts.

Variable eqs : string -> string -> bool.

Lemma get_header_value_present (request : HTTPRequest) (name : string) :
  has_header eqs request name = true ->
  exists v, get_header_value eqs request name = Ok v.
Proof.
  unfold has_header, get_header_value.
  induction (headers request) as [|h hs IH]; simpl; [discriminate|].
  destruct (eqs (key h) name); simpl; eauto.
Qed.

(** The validator never throws: each header is read only after it was found. *)
Lemma is_valid_handshake_request_returns (request : HTTPRequest) :
  exists b, is_valid_handshake_request eqs request = Ok b.
Proof.
  unfold is_valid_handshake_request.
  destruct (negb _); [eauto|].
  destruct (rfind _ _); [|eauto].
  destruct (_ && _); [eauto|].
  destruct (has_header eqs request "Connection") eqn:Hc; simpl; [|eauto].
  destruct (get_header_value_present _ _ Hc) as [v ->]; simpl.
  destruct (npos _); [eauto|].
  destruct (has_header eqs request "Upgrade") eqn:Hu; simpl; [|eauto].
  destruct (get_header_value_present _ _ Hu) as [w ->]; simpl.
  destruct (negb _); [eauto|].
  destruct (negb _); eauto.
Qed.

(** What a request that passes the validator looks like. *)
Lemma is_valid_handshake_request_true (request : HTTPRequest) :
  is_valid_handshake_request eqs request = Ok true ->
  substr (first_line request) 0 3 = "GET"
  /\ (protocol_token (first_line request) = Some "HTTP/1.1"
      \/ protocol_token (first_line request) = Some "HTTP/2")
  /\ (exists v, get_header_value eqs request "Connection" = Ok v
                /\ find v "Upgrade" <> None)
  /\ get_header_value eqs request "Upgrade" = Ok "websocket"
  /\ has_header eqs request "Sec-WebSocket-Key" = true.
Proof.
  unfold is_valid_handshake_request, protocol_token.
  destruct (String.eqb _ "GET") eqn:Hget; simpl; [|discriminate].
  apply String.eqb_eq in Hget.
  destruct (rfind _ _) as [i|]; [|discriminate].
  destruct (String.eqb _ "HTTP/1.1") eqn:H11; simpl.
  2: destruct (String.eqb _ "HTTP/2") eqn:H2; simpl; [|discriminate].
  all: (destruct (has_header eqs request "Connection") eqn:Hc; simpl; [|discriminate]);
       (destruct (get_header_value_present _ _ Hc) as [v Hv]; rewrite Hv; simpl);
       (destruct (find v "Upgrade") eqn:Hf; simpl; [|discriminate]);
       (destruct (has_header eqs request "Upgrade") eqn:Hu; simpl; [|discriminate]);
       (destruct (get_header_value_present _ _ Hu) as [w Hw]; rewrite Hw; simpl);
       (destruct (String.eqb w "websocket") eqn:Hws; simpl; [|discriminate]);
       apply String.eqb_eq in Hws; subst w;
       (destruct (has_header eqs request "Sec-WebSocket-Key"); simpl; [|discriminate]);
       intros _; split; [exact Hget|]; split.
  - left. f_equal. now apply String.eqb_eq.
  - split; [exists v; split; [reflexivity | congruence]|]. split; reflexivity.
  - right. f_equal. now apply String.eqb_eq.
  - split; [exists v; split; [reflexivity | congruence]|]. split; reflexivity.
Qed.

End HandshakeFacts.

(** C1 (the code departs from the specification).  The validator compares the first
    three characters of the request line with [GET]; it does not compare the
    method token: a request that passes starts with [GET], and that is all
    the first rule asks.  The request line [GETX /ws HTTP/1.1] has the method
    token [GETX], passes the validator and is answered with 101, not 400. *)
Theorem C1_method_prefix_is_accepted :
  (forall eqs request,
      is_valid_handshake_request eqs request = Ok true ->
      substr (first_line request) 0 3 = "GET")
  /\ method_token (first_line getx_request) = "GETX"
  /\ is_valid_handshake_request String.eqb getx_request = Ok true
  /\ (status_code <$> create_handshake_response String.eqb getx_request) = Ok "101".
Proof.
  split.
  - intros eqs request H. exact (proj1 (is_valid_handshake_request_true eqs request H)).
  - repeat split; vm_compute; reflexivity.
Qed.

Lemma create_handshake_response_cases eqs (request : HTTPRequest) :
  (is_valid_handshake_request eqs request = Ok false
   /\ create_handshake_response eqs request
      = Ok (error_response request "HTTP/1.1 400 Bad Request"))
  \/ (is_valid_handshake_request eqs request = Ok true
      /\ has_header eqs request "Origin" = false
      /\ create_handshake_response eqs request
         = Ok (error_response request "HTTP/1.1 403 Forbidden"))
  \/ (is_valid_handshake_request eqs request = Ok true
      /\ has_header eqs request "Origin" = true
      /\ exists sec_key,
           get_header_value eqs request "Sec-WebSocket-Key" = Ok sec_key
           /\ create_handshake_response eqs request
              = Ok (upgrade_response request
                      (Digest.base64_encode
                         (Digest.sha1
                            (Digest.bytes_of_string (sec_key +:+ WS_MAGIC_STRING)))))).
Proof.
  unfold create_handshake_response.
  destruct (is_valid_handshake_request_returns eqs request) as [[|] Hv]; rewrite Hv.
  - destruct (has_header eqs request "Origin") eqn:Ho.
    + right; right. split; [reflexivity|]. split; [reflexivity|].
      destruct (is_valid_handshake_request_true _ _ Hv) as (_ & _ & _ & _ & Hk).
      destruct (get_header_value_present _ _ _ Hk) as [k Hk'].
      exists k. split; [exact Hk'|]. now rewrite Hk'.
    + right; left. repeat split.
  - left. repeat split.
Qed.

Lemma status_code_error_403 r : status_code (error_response r "HTTP/1.1 403 Forbidden") = "403".
Proof. reflexivity. Qed.

Lemma status_code_upgrade r a : status_code (upgrade_response r a) = "101".
Proof. reflexivity. Qed.

(** C8.  A request that passes the validator but carries no [Origin] header is
    answered with 403 Forbidden; and every response whose status is 400 or
    403 has exactly the headers [Content-Length: 0] and [Connection: close]
    and an empty body. *)
Theorem C8_forbidden_without_origin eqs (request : HTTPRequest) :
  is_valid_handshake_request eqs request = Ok true ->
  has_header eqs request "Origin" = false ->
  (exists response,
      create_handshake_response eqs request = Ok response
      /\ response_first_line response = "HTTP/1.1 403 Forbidden"
      /\ status_code response = "403")
  /\ (forall (any : HTTPRequest) (response : HTTPResponse),
        create_handshake_response eqs any = Ok response ->
        status_code response = "400" \/ status_code response = "403" ->
        response_headers response
          = [ {| key := "Content-Length"; value := "0" |};
              {| key := "Connection"; value := "close" |} ]
        /\ response_body response = "").
Proof.
  intros Hv Ho. split.
  - destruct (create_handshake_response_cases eqs request)
      as [[Hf _] | [(_ & _ & Hr) | (_ & Ho' & _)]]; [congruence | | congruence].
    eexists. split; [exact Hr|]. split; reflexivity.
  - intros any response Hr Hs.
    destruct (create_handshake_response_cases eqs any)
      as [[_ Hr'] | [(_ & _ & Hr') | (_ & _ & k & _ & Hr')]];
      rewrite Hr' in Hr; injection Hr as <-.
    + split; reflexivity.
    + split; reflexivity.
    + rewrite status_code_upgrade in Hs. destruct Hs; discriminate.
Qed.

Lemma C8_witness :
  (exists response,
      create_handshake_response String.eqb no_origin_request = Ok response
      /\ response_first_line response = "HTTP/1.1 403 Forbidden"
      /\ status_code response = "403")
  /\ (forall (any : HTTPRequest) (response : HTTPResponse),
        create_handshake_response String.eqb any = Ok response ->
        status_code response = "400" \/ status_code response = "403" ->
        response_headers response
          = [ {| key := "Content-Length"; value := "0" |};
              {| key := "Connection"; value := "close" |} ]
        /\ response_body response = "").
Proof.
  apply (C8_forbidden_without_origin String.eqb no_origin_request); reflexivity.
Defined.

(** C6.  For a request that passes the validator, a 101 response carries
    [Sec-WebSocket-Accept: base64(sha1(K ∥ magic))], where [K] is the value
    of the request's [Sec-WebSocket-Key] header; and the key of RFC 6455's
    example gives the accept value of that example. *)
Theorem C6_sec_websocket_accept eqs (request : HTTPRequest) (response : HTTPResponse) :
  is_valid_handshake_request eqs request = Ok true ->
  create_handshake_response eqs request = Ok response ->
  status_code response = "101" ->
  (exists K,
      get_header_value eqs request "Sec-WebSocket-Key" = Ok K
      /\ response_first_line response = "HTTP/1.1 101 Switching Protocols"
      /\ response_headers response
         = [ {| key := "Connection"; value := "Upgrade" |};
             {| key := "Upgrade"; value := "websocket" |};
             {| key := "Sec-WebSocket-Accept";
                value := Digest.base64_encode
                           (Digest.sha1
                              (Digest.bytes_of_string
                                 (K +:+ "258EAFA5-E914-47DA-95CA-C5AB0DC85B11"))) |} ])
  /\ Digest.base64_encode
       (Digest.sha1
          (Digest.bytes_of_string
             ("dGhlIHNhbXBsZSBub25jZQ==" +:+ "258EAFA5-E914-47DA-95CA-C5AB0DC85B11")))
     = "s3pPLMBiTxaQ9kYGzzhZRbK+xOo=".
Proof.
  intros Hv Hr Hs. split; [|vm_compute; reflexivity].
  destruct (create_handshake_response_cases eqs request)
    as [[Hf _] | [(_ & _ & Hr') | (_ & _ & k & Hk & Hr')]]; [congruence | |].
  - rewrite Hr' in Hr. injection Hr as <-.
    rewrite status_code_error_403 in Hs. discriminate.
  - rewrite Hr' in Hr. injection Hr as <-.
    exists k. split; [exact Hk|]. split; reflexivity.
Qed.

Lemma C6_witness :
  (exists K,
      get_header_value String.eqb sample_request "Sec-WebSocket-Key" = Ok K
      /\ response_first_line
           (upgrade_response sample_request "s3pPLMBiTxaQ9kYGzzhZRbK+xOo=")
         = "HTTP/1.1 101 Switching Protocols"
      /\ response_headers
           (upgrade_response sample_request "s3pPLMBiTxaQ9kYGzzhZRbK+xOo=")
         = [ {| key := "Connection"; value := "Upgrade" |};
             {| key := "Upgrade"; value := "websocket" |};
             {| key := "Sec-WebSocket-Accept";
                value := Digest.base64_encode
                           (Digest.sha1
                              (Digest.bytes_of_string
                                 (K +:+ "258EAFA5-E914-47DA-95CA-C5AB0DC85B11"))) |} ])
  /\ Digest.base64_encode
       (Digest.sha1
          (Digest.bytes_of_string
             ("dGhlIHNhbXBsZSBub25jZQ==" +:+ "258EAFA5-E914-47DA-95CA-C5AB0DC85B11")))
     = "s3pPLMBiTxaQ9kYGzzhZRbK+xOo=".
Proof.
  apply (C6_sec_websocket_accept String.eqb sample_request
           (upgrade_response sample_request "s3pPLMBiTxaQ9kYGzzhZRbK+xOo="));
    vm_compute; reflexivity.
Defined.

(** ** The activation predicates *)

Lemma State_eqb_eq (a b : State) : State_eqb a b = true <-> a = b.
Proof. destruct a, b; simpl; split; intros H; try reflexivity; discriminate. Qed.

Lemma data_to_send_spec {E : Collaborators} (conn : Connection) :
  data_to_send conn = true
  <-> send_buffer conn <> [] \/ (0 < Socket_buffer_bytes (socket conn))%N.
Proof.
  unfold data_to_send. rewrite orb_true_iff, N.ltb_lt.
  destruct (send_buffer conn); simpl; split; intros [H|H]; auto; try discriminate.
Qed.

(** C4.  The read predicate holds exactly when the state is neither
    Connecting nor Closed; the write predicate holds exactly when the state
    is Connecting, or the state is Connected, Closing or Closed and there is
    data to send (a non-empty send buffer, or bytes buffered in the
    transport). *)
Theorem C4_activation_predicates {E : Collaborators} (conn : Connection) :
  (read_predicate conn = true
   <-> state conn <> Connecting /\ state conn <> Closed)
  /\ (write_predicate conn = true
      <-> state conn = Connecting
          \/ ((state conn = Connected \/ state conn = Closing \/ state conn = Closed)
              /\ (send_buffer conn <> []
                  \/ (0 < Socket_buffer_bytes (socket conn))%N))).
Proof.
  split.
  - unfold read_predicate.
    destruct (state conn); simpl; split; intros H;
      try reflexivity; try discriminate; try (split; discriminate);
      destruct H as [H1 H2]; congruence.
  - unfold write_predicate. rewrite <- data_to_send_spec.
    destruct (state conn), (data_to_send conn); simpl; split; intros H;
      try reflexivity; try discriminate; auto 6;
      destruct H as [H | [[H | [H | H]] H']]; discriminate.
Qed.

(** ** Draining the send buffer *)

Lemma Socket_write_bound (buffer : string) (sock : Socket) :
  fst (Socket_write buffer sock) <= String.length buffer.
Proof. unfold Socket_write; simpl. lia. Qed.

Lemma Socket_write_wire (buffer : string) (sock : Socket) :
  wire (snd (Socket_write buffer sock))
  = wire sock +:+ substr buffer 0 (fst (Socket_write buffer sock)).
Proof. reflexivity. Qed.

Lemma erase_front_suffix (n : nat) (buffer : string) :
  n <= String.length buffer -> substr buffer 0 n +:+ erase_front n buffer = buffer.
Proof. intros H. unfold substr, erase_front. now apply substring_split. Qed.

Lemma write_plain_cons (buffer : string) (rest : list string) (sock : Socket) :
  write_plain (buffer :: rest) sock
  = if negb (fst (Socket_write buffer sock) =? String.length buffer)%nat
    then (erase_front (fst (Socket_write buffer sock)) buffer :: rest,
          snd (Socket_write buffer sock))
    else write_plain rest (snd (Socket_write buffer sock)).
Proof. reflexivity. Qed.

Lemma write_plain_conserves (buffers : list string) (sock : Socket) :
  exists sent,
    wire (snd (write_plain buffers sock)) = wire sock +:+ sent
    /\ sent +:+ concat_all (fst (write_plain buffers sock)) = concat_all buffers.
Proof.
  revert sock. induction buffers as [|buffer rest IH]; intros sock.
  - exists "". simpl. split; [now rewrite append_empty_r | reflexivity].
  - rewrite write_plain_cons.
    pose proof (Socket_write_bound buffer sock) as Hle.
    pose proof (Socket_write_wire buffer sock) as Hw.
    destruct (Socket_write buffer sock) as [it sock'] eqn:Hsw.
    cbn [fst snd] in *.
    destruct (it =? String.length buffer)%nat eqn:Hit; cbn [negb fst snd].
    + apply Nat.eqb_eq in Hit. subst it.
      destruct (IH sock') as (sent & Hs1 & Hs2).
      exists (buffer +:+ sent). split.
      * rewrite Hs1, Hw. unfold substr. rewrite substring_all.
        apply append_assoc.
      * rewrite append_assoc, Hs2. reflexivity.
    + exists (substr buffer 0 it). split; [exact Hw|].
      change (concat_all (erase_front it buffer :: rest))
        with (erase_front it buffer +:+ concat_all rest).
      rewrite <- append_assoc. rewrite erase_front_suffix by exact Hle.
      reflexivity.
Qed.

(** C7.  [write()] on a plain transport works through the send buffer from
    the front: with an empty buffer it does nothing; when the socket takes
    only a proper prefix of the head, the head is replaced by the rest of it
    and the loop stops; when the socket takes the whole head, the head is
    popped and the loop goes on with the next buffer.  What has reached the
    wire, followed by what is still queued, is what was on the wire followed
    by what was queued: the bytes go out in order, none is kept and none is
    sent twice. *)
Theorem C7_plain_write_front_to_back {E : Collaborators} :
  (forall sock, write_plain [] sock = ([], sock))
  /\ (forall buffer rest sock,
        fst (Socket_write buffer sock) < String.length buffer ->
        write_plain (buffer :: rest) sock
        = (erase_front (fst (Socket_write buffer sock)) buffer :: rest,
           snd (Socket_write buffer sock))
        /\ substr buffer 0 (fst (Socket_write buffer sock))
           +:+ erase_front (fst (Socket_write buffer sock)) buffer = buffer
        /\ wire (snd (Socket_write buffer sock))
           = wire sock +:+ substr buffer 0 (fst (Socket_write buffer sock)))
  /\ (forall buffer rest sock,
        fst (Socket_write buffer sock) = String.length buffer ->
        write_plain (buffer :: rest) sock
        = write_plain rest (snd (Socket_write buffer sock))
        /\ wire (snd (Socket_write buffer sock)) = wire sock +:+ buffer)
  /\ (forall conn : Connection,
        send_buffer (Connection_write TCPSocket conn)
        = fst (write_plain (send_buffer conn) (socket conn))
        /\ socket (Connection_write TCPSocket conn)
           = snd (write_plain (send_buffer conn) (socket conn))
        /\ state (Connection_write TCPSocket conn) = state conn
        /\ exists sent,
             wire (socket (Connection_write TCPSocket conn))
             = wire (socket conn) +:+ sent
             /\ sent +:+ concat_all (send_buffer (Connection_write TCPSocket conn))
                = concat_all (send_buffer conn)).
Proof.
  split; [reflexivity|]. split; [|split].
  - intros buffer rest sock Hlt. split; [|split].
    + rewrite write_plain_cons.
      destruct (Nat.eqb_spec (fst (Socket_write buffer sock)) (String.length buffer));
        [lia | reflexivity].
    + apply erase_front_suffix. lia.
    + apply Socket_write_wire.
  - intros buffer rest sock Heq. split.
    + rewrite write_plain_cons, Heq, Nat.eqb_refl. reflexivity.
    + rewrite Socket_write_wire, Heq. unfold substr. now rewrite substring_all.
  - intros conn. unfold Connection_write.
    pose proof (write_plain_conserves (send_buffer conn) (socket conn)) as Hc.
    destruct (write_plain (send_buffer conn) (socket conn)) as [buffers sock].
    simpl in *. repeat split; exact Hc.
Qed.

Lemma C7_witness :
  write_plain ["hello"; "world"] (Reference.client [] [3])
  = (erase_front (fst (Socket_write "hello" (Reference.client [] [3]))) "hello"
       :: ["world"],
     snd (Socket_write "hello" (Reference.client [] [3])))
  /\ substr "hello" 0 (fst (Socket_write "hello" (Reference.client [] [3])))
     +:+ erase_front (fst (Socket_write "hello" (Reference.client [] [3]))) "hello"
     = "hello"
  /\ wire (snd (Socket_write "hello" (Reference.client [] [3])))
     = wire (Reference.client [] [3])
       +:+ substr "hello" 0 (fst (Socket_write "hello" (Reference.client [] [3]))).
Proof.
  apply (proj1 (proj2 (C7_plain_write_front_to_back (E := Reference.collaborators)))
           "hello" ["world"] (Reference.client [] [3])).
  vm_compute. lia.
Defined.

(** ** Running the monad *)

Section ServerFacts.

Context {E : Collaborators}.

Lemma conn_at_None (id : N) (s : WSServer) :
  connections_ s !! id = None -> conn_at id s = Throw out_of_range.
Proof. unfold conn_at. now intros ->. Qed.

Lemma bind_Throw {A B} (m : M A) (k : A -> M B) (s : WSServer) (e : exn) :
  m s = Throw e -> bind m k s = Throw e.
Proof. unfold bind. now intros ->. Qed.

(** C10.  With an identifier that is not in the connection table,
    [queue_frame], [close_connection], [clear_buffer], [peer_addr] and
    [buffer_bytes] throw the table lookup's [out_of_range] and change
    nothing; [drop_connection] returns and changes nothing. *)
Theorem C10_missing_identifier (T : SocketType) (s : WSServer) (id : N) :
  connections_ s !! id = None ->
  (forall who frame, queue_frame who id frame s = Throw out_of_range)
  /\ close_connection id s = Throw out_of_range
  /\ clear_buffer T id s = Throw out_of_range
  /\ peer_addr id s = Throw out_of_range
  /\ buffer_bytes T id s = Throw out_of_range
  /\ drop_connection id s = Ok (tt, s).
Proof.
  intros H. pose proof (conn_at_None _ _ H) as Hat.
  repeat split; intros;
    try (unfold queue_frame, close_connection, clear_buffer, peer_addr, buffer_bytes;
         now apply bind_Throw).
  unfold drop_connection, bind, get, ret. now rewrite H.
Qed.

End ServerFacts.

Lemma C10_witness :
  (forall who frame,
      queue_frame who 7%N frame (WSServer_new (E := Reference.collaborators) "0.0.0.0:8080")
      = Throw out_of_range)
  /\ close_connection 7%N (WSServer_new (E := Reference.collaborators) "0.0.0.0:8080")
     = Throw out_of_range
  /\ clear_buffer TCPSocket 7%N (WSServer_new (E := Reference.collaborators) "0.0.0.0:8080")
     = Throw out_of_range
  /\ peer_addr 7%N (WSServer_new (E := Reference.collaborators) "0.0.0.0:8080")
     = Throw out_of_range
  /\ buffer_bytes TCPSocket 7%N (WSServer_new (E := Reference.collaborators) "0.0.0.0:8080")
     = Throw out_of_range
  /\ drop_connection 7%N (WSServer_new (E := Reference.collaborators) "0.0.0.0:8080")
     = Ok (tt, WSServer_new (E := Reference.collaborators) "0.0.0.0:8080").
Proof.
  apply (C10_missing_identifier (E := Reference.collaborators) TCPSocket
           (WSServer_new "0.0.0.0:8080") 7%N).
  reflexivity.
Defined.

(** ** Running the server's methods

    [run_server] unfolds the monad and the record updates, leaving the
    table lookups and the tests on data. *)

Ltac run_server :=
  cbn [bind ret get modify update upcall lift throw emplace
       set_active set_last_connection_id set_connections set_closed_connections
       note_upcall listener_addr_ active_ last_connection_id_ connections_
       closed_connections_ upcalls
       set_socket set_state set_ws_handshake_parser set_ws_message_parser
       set_send_buffer note_queued emplace_back
       socket state ws_handshake_parser ws_message_parser send_buffer queued
       fst snd negb andb orb State_eqb] in *.

Section DropFacts.

Context {E : Collaborators}.

Lemma alter_present (f : Connection -> Connection) (id : N)
      (table : gmap N Connection) (conn : Connection) :
  table !! id = Some conn -> alter f id table = <[id := f conn]> table.
Proof.
  intros H. apply map_eq. intros j.
  destruct (decide (id = j)) as [->|Hne].
  - now rewrite lookup_alter_eq, lookup_insert_eq, H.
  - now rewrite lookup_alter_ne, lookup_insert_ne.
Qed.

Lemma erase_all_lookup (ids : list N) (table : gmap N Connection) (j : N) :
  erase_all ids table !! j = if decide (j ∈ ids) then None else table !! j.
Proof.
  revert table. induction ids as [|i ids IH]; intros table.
  - destruct (decide (j ∈ [])) as [Hin|_]; [|reflexivity].
    now apply not_elem_of_nil in Hin.
  - change (erase_all (i :: ids) table) with (erase_all ids (delete i table)).
    rewrite IH.
    destruct (decide (j ∈ ids)) as [Hin|Hnin];
      destruct (decide (j ∈ i :: ids)) as [Hin'|Hnin']; try reflexivity.
    + exfalso. apply Hnin'. now right.
    + apply elem_of_cons in Hin' as [->|Hin']; [apply lookup_delete_eq | tauto].
    + apply lookup_delete_ne. intros ->. apply Hnin'. left.
Qed.

Lemma erase_all_subseteq (ids : list N) (table : gmap N Connection) :
  erase_all ids table ⊆ table.
Proof.
  revert table. induction ids as [|i ids IH]; intros table; simpl; [done|].
  etransitivity; [apply IH | apply delete_subseteq].
Qed.

Lemma drop_connection_Some (id : N) (s : WSServer) (conn : Connection) :
  connections_ s !! id = Some conn ->
  drop_connection id s
  = Ok (tt, {| listener_addr_ := listener_addr_ s; active_ := active_ s;
               last_connection_id_ := last_connection_id_ s;
               connections_ := <[id := set_state Closed conn]> (connections_ s);
               closed_connections_ := {[id]} ∪ closed_connections_ s;
               upcalls := upcalls s ++ [close_callback id] |}).
Proof.
  intros H. unfold drop_connection. run_server. rewrite H. run_server.
  now rewrite (alter_present _ _ _ _ H).
Qed.

Lemma drop_connection_None (id : N) (s : WSServer) :
  connections_ s !! id = None -> drop_connection id s = Ok (tt, s).
Proof. intros H. unfold drop_connection. run_server. now rewrite H. Qed.

End DropFacts.

(** C3 (as amended).  [drop_connection id] returns without any effect when
    [id] is not in the table.  Otherwise it sets the state to Closed, invokes
    [close_callback id] once and inserts [id] into the closed set.  A second
    call before the garbage collection finds the connection still in the
    table: it leaves the table and the closed set as they are and invokes
    [close_callback id] again.  After the garbage collection the connection
    is gone and any further call returns without effect. *)
Theorem C3_drop_connection {E : Collaborators} (s : WSServer) (id : N) :
  (connections_ s !! id = None -> drop_connection id s = Ok (tt, s))
  /\ (forall conn, connections_ s !! id = Some conn ->
      exists s',
        drop_connection id s = Ok (tt, s')
        /\ connections_ s' = <[id := set_state Closed conn]> (connections_ s)
        /\ closed_connections_ s' = {[id]} ∪ closed_connections_ s
        /\ upcalls s' = (upcalls s ++ [close_callback id])%list
        /\ active_ s' = active_ s
        /\ (exists s'',
               drop_connection id s' = Ok (tt, s'')
               /\ connections_ s'' = connections_ s'
               /\ closed_connections_ s'' = closed_connections_ s'
               /\ upcalls s'' = (upcalls s' ++ [close_callback id])%list)
        /\ (forall s3, collect s' = Ok (tt, s3) ->
               connections_ s3 !! id = None
               /\ drop_connection id s3 = Ok (tt, s3))).
Proof.
  split; [apply drop_connection_None|].
  intros conn Hc. eexists. split; [apply (drop_connection_Some _ _ _ Hc)|].
  cbn [connections_ closed_connections_ upcalls active_].
  repeat (split; [reflexivity|]). split.
  - eexists. split.
    + apply drop_connection_Some. cbn [connections_]. apply lookup_insert_eq.
    + cbn [connections_ closed_connections_ upcalls].
      split; [|split; [|reflexivity]].
      * rewrite insert_insert_eq. reflexivity.
      * rewrite (assoc_L (∪)), (idemp_L (∪)). reflexivity.
  - intros s3 Hs3. unfold collect in Hs3. run_server.
    injection Hs3 as <-. cbn [connections_].
    assert (Hgone : erase_all (elements ({[id]} ∪ closed_connections_ s))
                      (<[id := set_state Closed conn]> (connections_ s)) !! id = None).
    { rewrite erase_all_lookup. rewrite decide_True; [reflexivity|].
      apply elem_of_elements. set_solver. }
    split; [exact Hgone|]. apply drop_connection_None. exact Hgone.
Qed.

(** ** What one step does to the table *)

(** Symbolic execution of a call [H : m s = Ok (a, s')], given the entry
    [Hc] of the connection it works on. *)
Ltac unfold_server H :=
  unfold read_callback, write_callback, accept_callback, close_connection,
         queue_frame, drop_connection, clear_buffer, when_registered,
         Connection_read, conn_at, update, upcall, emplace, lift, throw, get,
         modify, ret, bind in H.

Ltac simp_server H Hc :=
  cbn [set_active set_last_connection_id set_connections set_closed_connections
       note_upcall listener_addr_ active_ last_connection_id_ connections_
       closed_connections_ upcalls
       set_socket set_state set_ws_handshake_parser set_ws_message_parser
       set_send_buffer note_queued emplace_back
       socket state ws_handshake_parser ws_message_parser send_buffer queued
       fst snd negb andb orb State_eqb fmap option_fmap option_map] in H;
  rewrite ?lookup_alter_eq, ?Hc in H;
  cbn [fmap option_fmap option_map] in H.

Ltac split_server H :=
  match type of H with
  | context [match ?x with _ => _ end] =>
      lazymatch x with
      | context [match _ with _ => _ end] => fail
      | negb ?y => destruct y eqn:?
      | _ => destruct x eqn:?
      end
  end.

Ltac exec_server H Hc :=
  unfold_server H;
  repeat (simp_server H Hc; try discriminate H; try split_server H).

Section StepFacts.

Context {E : Collaborators}.

Lemma evolves_refl (s : WSServer) : evolves s s.
Proof. repeat split. intros id conn' H. exists conn'. tauto. Qed.

Lemma evolves_alter (s s' : WSServer) (id : N) (F : Connection -> Connection) :
  active_ s' = active_ s ->
  connections_ s' = alter F id (connections_ s) ->
  (forall conn, connections_ s !! id = Some conn ->
                close_frames_ok conn -> close_frames_ok (F conn)) ->
  evolves s s'.
Proof.
  intros Ha Hc HF. split; [exact Ha|]. split.
  - rewrite Hc. apply dom_alter_L.
  - intros j conn' Hj. rewrite Hc in Hj.
    destruct (decide (id = j)) as [<-|Hne].
    + rewrite lookup_alter_eq in Hj.
      destruct (connections_ s !! id) as [conn|] eqn:Hid; [|discriminate].
      injection Hj as <-. exists conn. split; [reflexivity | now apply HF].
    + rewrite lookup_alter_ne in Hj by exact Hne. exists conn'. tauto.
Qed.

Lemma evolves_listener_ok (s s' : WSServer) :
  evolves s s' -> listener_ok s -> listener_ok s'.
Proof.
  intros (Ha & Hd & _) H Hact. rewrite Ha in Hact.
  rewrite <- (size_dom (D := gset N) (connections_ s')), Hd, size_dom.
  exact (H Hact).
Qed.

Lemma evolves_table_ok (s s' : WSServer) :
  evolves s s' -> table_ok s -> table_ok s'.
Proof.
  intros (_ & _ & Hc) H id conn' Hid.
  destruct (Hc _ _ Hid) as (conn & Hid' & Hok). eauto.
Qed.

Lemma Connection_write_state T (c : Connection) :
  state (Connection_write T c) = state c.
Proof.
  unfold Connection_write.
  destruct T; [destruct (write_plain _ _) | destruct (write_secure _ _)]; reflexivity.
Qed.

Lemma Connection_write_queued T (c : Connection) :
  queued (Connection_write T c) = queued c.
Proof.
  unfold Connection_write.
  destruct T; [destruct (write_plain _ _) | destruct (write_secure _ _)]; reflexivity.
Qed.

End StepFacts.

Ltac conn_goal :=
  repeat match goal with
         | H : State_eqb _ _ = true |- _ => apply State_eqb_eq in H
         end;
  unfold close_frames_ok, server_closes, compose in *;
  cbn [set_socket set_state set_ws_handshake_parser set_ws_message_parser
       set_send_buffer note_queued emplace_back
       socket state ws_handshake_parser ws_message_parser send_buffer queued] in *;
  rewrite ?Connection_write_state, ?Connection_write_queued in *;
  cbn [set_socket set_state set_ws_handshake_parser set_ws_message_parser
       set_send_buffer note_queued emplace_back
       socket state ws_handshake_parser ws_message_parser send_buffer queued] in *;
  rewrite ?List.filter_app, ?List.length_app;
  repeat match goal with H : state _ = _ |- _ => rewrite H in * end;
  cbn [List.filter is_server_close WSFrame.opcode List.length close_budget] in *;
  try lia;
  try (match goal with
       | H : context [close_budget (state ?c)] |- _ => destruct (state c)
       end;
       cbn [close_budget] in *; lia).

Ltac leaf Hc :=
  first
    [ apply evolves_refl
    | eapply evolves_alter;
      [ reflexivity
      | cbn [connections_]; rewrite ?alter_alter_eq; reflexivity
      | let c0 := fresh "c" in
        let Hc0 := fresh "Hc" in
        let Hok := fresh "Hok" in
        intros c0 Hc0 Hok; rewrite Hc in Hc0; injection Hc0 as <-; conn_goal ] ].

Section Evolution.

Context {E : Collaborators}.

Variable T : SocketType.

Lemma read_callback_evolves (id : N) (s s' : WSServer) (r : ResultType)
      (c : Connection) :
  connections_ s !! id = Some c ->
  read_callback id s = Ok (r, s') -> evolves s s'.
Proof.
  intros Hc H. exec_server H Hc.
  all: injection H as <- <-.
  all: leaf Hc.
Qed.

Lemma write_callback_evolves (id : N) (s s' : WSServer) (r : ResultType)
      (c : Connection) :
  connections_ s !! id = Some c ->
  write_callback T id s = Ok (r, s') -> evolves s s'.
Proof.
  intros Hc H. exec_server H Hc.
  all: injection H as <- <-.
  all: leaf Hc.
Qed.

Lemma queue_frame_evolves (id : N) (frame : WSFrame.t) (s s' : WSServer) (b : bool) :
  queue_frame by_application id frame s = Ok (b, s') -> evolves s s'.
Proof.
  intros H. destruct (connections_ s !! id) as [c|] eqn:Hc.
  - exec_server H Hc. all: injection H as <- <-. all: leaf Hc.
  - unfold queue_frame in H. now rewrite (bind_Throw _ _ _ _ (conn_at_None _ _ Hc)) in H.
Qed.

Lemma close_connection_evolves (id : N) (s s' : WSServer) :
  close_connection id s = Ok (tt, s') -> evolves s s'.
Proof.
  intros H. destruct (connections_ s !! id) as [c|] eqn:Hc.
  - exec_server H Hc. all: injection H as <-. all: leaf Hc.
  - unfold close_connection in H.
    now rewrite (bind_Throw _ _ _ _ (conn_at_None _ _ Hc)) in H.
Qed.

Lemma clear_buffer_evolves (id : N) (s s' : WSServer) :
  clear_buffer T id s = Ok (tt, s') -> evolves s s'.
Proof.
  intros H. destruct (connections_ s !! id) as [c|] eqn:Hc.
  - exec_server H Hc. all: injection H as <-. all: leaf Hc.
  - unfold clear_buffer in H.
    now rewrite (bind_Throw _ _ _ _ (conn_at_None _ _ Hc)) in H.
Qed.

End Evolution.

(** ** The listener, the garbage collection and the loop *)

Section LoopFacts.

Context {E : Collaborators}.

Variable T : SocketType.

Lemma new_connection_ok (client : Socket) : close_frames_ok (new_connection client).
Proof. unfold close_frames_ok, server_closes. simpl. lia. Qed.

Lemma accept_callback_effect (client : Socket) (s s' : WSServer) (r : ResultType) :
  accept_callback client s = Ok (r, s') ->
  (connections_ s' = connections_ s
   \/ connections_ s' = <[last_connection_id_ s := new_connection client]> (connections_ s))
  /\ active_ s'
     = (if (MAX_CONNECTION_NUM <=? size (connections_ s'))%nat then false else active_ s)
  /\ r = (if (MAX_CONNECTION_NUM <=? size (connections_ s'))%nat
          then CancelAll else Continue)
  /\ last_connection_id_ s' = ((last_connection_id_ s + 1) mod 2 ^ 64)%N
  /\ closed_connections_ s' = closed_connections_ s
  /\ upcalls s' = upcalls s.
Proof.
  intros H. unfold accept_callback, emplace, conn_at, modify, get, ret, bind in H.
  cbn [connections_ set_last_connection_id last_connection_id_] in H.
  destruct (connections_ s !! last_connection_id_ s) as [c|] eqn:Hc.
  - cbn [connections_ set_last_connection_id] in H. rewrite Hc in H.
    cbn [connections_ set_last_connection_id] in H.
    destruct (MAX_CONNECTION_NUM <=? size (connections_ s))%nat eqn:Hcap;
      injection H as <- <-;
      cbn [connections_ active_ last_connection_id_ closed_connections_ upcalls
           set_active set_connections set_last_connection_id];
      rewrite Hcap; repeat split; auto.
  - cbn [connections_ set_last_connection_id set_connections] in H.
    rewrite lookup_insert_eq in H.
    cbn [connections_ set_last_connection_id set_connections] in H.
    destruct (MAX_CONNECTION_NUM <=? size (<[_ := _]> (connections_ s)))%nat eqn:Hcap;
      injection H as <- <-;
      cbn [connections_ active_ last_connection_id_ closed_connections_ upcalls
           set_active set_connections set_last_connection_id];
      rewrite Hcap; repeat split; auto.
Qed.

Lemma accept_callback_ok (client : Socket) (s s' : WSServer) (r : ResultType) :
  accept_callback client s = Ok (r, s') ->
  listener_ok s' /\ (table_ok s -> table_ok s').
Proof.
  intros H. destruct (accept_callback_effect _ _ _ _ H) as (Hc & Ha & _). split.
  - intros Hact. rewrite Ha in Hact.
    destruct (Nat.leb_spec MAX_CONNECTION_NUM (size (connections_ s')));
      [discriminate | assumption].
  - intros Hok id conn Hid. destruct Hc as [Hc|Hc]; rewrite Hc in Hid.
    + eauto.
    + destruct (decide (last_connection_id_ s = id)) as [<-|Hne].
      * rewrite lookup_insert_eq in Hid. injection Hid as <-.
        apply new_connection_ok.
      * rewrite lookup_insert_ne in Hid by exact Hne. eauto.
Qed.

Lemma session_progress_evolves (id : N) (s : WSServer) :
  evolves s (set_connections
               (alter (fun c => set_socket (Socket_flush (socket c)) c) id (connections_ s))
               s).
Proof.
  eapply evolves_alter; [reflexivity | reflexivity |].
  intros conn _ Hok. exact Hok.
Qed.

Lemma dispatch_ok (ev : Event) (s s' : WSServer) :
  dispatch T ev s = Ok (tt, s') ->
  listener_ok s -> table_ok s -> listener_ok s' /\ table_ok s'.
Proof.
  intros H Hl Ht.
  assert (Hev : evolves s s' -> listener_ok s' /\ table_ok s')
    by (intros Hev; split;
        [exact (evolves_listener_ok _ _ Hev Hl) | exact (evolves_table_ok _ _ Hev Ht)]).
  destruct ev as [client|id|id|id|id frame|id|id]; cbn [dispatch] in H.
  - unfold bind at 1, get in H. destruct (active_ s).
    + unfold bind at 1, ret in H.
      destruct (accept_callback client s) as [[r s1]|] eqn:Hacc; [|discriminate].
      injection H as <-. destruct (accept_callback_ok _ _ _ _ Hacc). auto.
    + injection H as <-. auto.
  - unfold when_registered, bind at 1, get in H.
    destruct (connections_ s !! id) as [c|] eqn:Hc.
    + unfold bind at 1, ret in H.
      destruct (read_callback id s) as [[r s1]|] eqn:Hcb; [|discriminate].
      injection H as <-. apply Hev. exact (read_callback_evolves _ _ _ _ _ Hc Hcb).
    + injection H as <-. auto.
  - unfold when_registered, bind at 1, get in H.
    destruct (connections_ s !! id) as [c|] eqn:Hc.
    + unfold bind at 1, ret in H.
      destruct (write_callback T id s) as [[r s1]|] eqn:Hcb; [|discriminate].
      injection H as <-. apply Hev. exact (write_callback_evolves _ _ _ _ _ _ Hc Hcb).
    + injection H as <-. auto.
  - destruct T.
    + injection H as <-. auto.
    + injection H as <-. apply Hev. apply session_progress_evolves.
  - unfold bind at 1, ret in H.
    destruct (queue_frame by_application id frame s) as [[b s1]|] eqn:Hq; [|discriminate].
    injection H as <-. apply Hev. exact (queue_frame_evolves _ _ _ _ _ Hq).
  - apply Hev. exact (close_connection_evolves _ _ _ H).
  - apply Hev. exact (clear_buffer_evolves _ _ _ _ H).
Qed.

Lemma poll_ok (ready : list Event) (s s' : WSServer) :
  poll T ready s = Ok (tt, s') ->
  listener_ok s -> table_ok s -> listener_ok s' /\ table_ok s'.
Proof.
  revert s. induction ready as [|ev later IH]; intros s H Hl Ht.
  - injection H as <-. auto.
  - cbn [poll] in H. unfold bind at 1 in H.
    destruct (dispatch T ev s) as [[[] s1]|] eqn:Hd; [|discriminate].
    destruct (dispatch_ok _ _ _ Hd Hl Ht). eauto.
Qed.

Lemma collect_effect (s s' : WSServer) :
  collect s = Ok (tt, s') ->
  connections_ s' = erase_all (elements (closed_connections_ s)) (connections_ s)
  /\ closed_connections_ s' = ∅
  /\ active_ s' = active_ s
  /\ upcalls s' = upcalls s.
Proof. intros H. injection H as <-. repeat split. Qed.

Lemma collect_ok (s s' : WSServer) :
  collect s = Ok (tt, s') ->
  listener_ok s -> table_ok s -> listener_ok s' /\ table_ok s'.
Proof.
  intros H Hl Ht. destruct (collect_effect _ _ H) as (Hc & _ & Ha & _). split.
  - intros Hact. rewrite Ha in Hact. rewrite Hc.
    eapply Nat.le_lt_trans; [|exact (Hl Hact)].
    apply map_subseteq_size, erase_all_subseteq.
  - intros id conn Hid. rewrite Hc, erase_all_lookup in Hid.
    destruct (decide _); [discriminate | eauto].
Qed.

Lemma loop_once_ok (ready : list Event) (s s' : WSServer) :
  loop_once T ready s = Ok (tt, s') ->
  listener_ok s -> table_ok s -> listener_exact s' /\ table_ok s'.
Proof.
  intros H Hl Ht. unfold loop_once in H. unfold bind at 1 in H.
  destruct (poll T ready s) as [[[] s1]|] eqn:Hp; [|discriminate].
  destruct (poll_ok _ _ _ Hp Hl Ht) as [Hl1 Ht1].
  unfold bind at 1 in H.
  destruct (collect s1) as [[[] s2]|] eqn:Hg; [|discriminate].
  destruct (collect_ok _ _ Hg Hl1 Ht1) as [Hl2 Ht2].
  unfold bind at 1, get in H.
  destruct (active_ s2) eqn:Ha; cbn [negb andb] in H.
  - injection H as <-. split; [|exact Ht2]. split; [exact Hl2 | now rewrite Ha].
  - destruct (Nat.ltb_spec (size (connections_ s2)) MAX_CONNECTION_NUM) as [Hlt|Hge].
    + injection H as <-. split; [|exact Ht2]. split; auto.
    + injection H as <-. split; [|exact Ht2]. split.
      * rewrite Ha. discriminate.
      * intros Hlt. lia.
Qed.

Lemma reachable_ok (s : WSServer) :
  reachable T s -> listener_exact s /\ table_ok s.
Proof.
  induction 1 as [addr | s ready s' _ [Hl Ht] Hloop].
  - split.
    + split; [intros _; cbn; rewrite map_size_empty; unfold MAX_CONNECTION_NUM; lia
             | reflexivity].
    + intros id conn Hid. cbn in Hid. now rewrite lookup_empty in Hid.
  - eapply loop_once_ok; [exact Hloop | exact (proj1 Hl) | exact Ht].
Qed.

Lemma reachable_in_poll_ok (s : WSServer) :
  reachable_in_poll T s -> listener_ok s /\ table_ok s.
Proof.
  induction 1 as [s Hr | s ev s' _ [Hl Ht] Hd].
  - destruct (reachable_ok _ Hr) as [Hl Ht]. split; [exact (proj1 Hl) | exact Ht].
  - exact (dispatch_ok _ _ _ Hd Hl Ht).
Qed.

End LoopFacts.

(** ** The read action in the Connected state *)

Ltac exec_server_with tac H Hc :=
  unfold_server H; unfold WSMessageParser_parse in H;
  repeat (repeat (progress
                    (simp_server H Hc;
                     cbn [WSMessageParser_pop complete_messages ws_pending tail] in H;
                     tac));
          try discriminate H; try split_server H).

(** C2 (as amended).  A read action that fires on a Connected connection,
    reads data that is not empty and parses, handles at most one message:
    the oldest one the parser holds once the data is fed.  Text or Binary
    invokes [message_callback] with it; Close queues a Close frame with the
    client's payload and sets the state to Closed; Ping queues a Pong frame
    with an empty payload; Pong is ignored.  The messages behind it stay in
    the parser's queue for a later dispatch. *)
Theorem C2_read_connected_one_message {E : Collaborators}
        (id : N) (s : WSServer) (c : Connection) (data : string) (sock : Socket)
        (pending : ws_decoder) (done : list WSMessage.t) :
  connections_ s !! id = Some c ->
  state c = Connected ->
  Socket_read (socket c) = (data, sock) ->
  (data =? "") = false ->
  ws_decode (ws_pending (ws_message_parser c)) data = (pending, done, None) ->
  exists s' c',
    read_callback id s = Ok (Continue, s')
    /\ connections_ s' = <[id := c']> (connections_ s)
    /\ closed_connections_ s' = closed_connections_ s
    /\ active_ s' = active_ s
    /\ socket c' = sock
    /\ ws_pending (ws_message_parser c') = pending
    /\ match (complete_messages (ws_message_parser c) ++ done)%list with
       | [] =>
           complete_messages (ws_message_parser c') = []
           /\ state c' = Connected
           /\ send_buffer c' = send_buffer c
           /\ upcalls s' = upcalls s
       | message :: later =>
           complete_messages (ws_message_parser c') = later
           /\ match WSMessage.type message with
              | WSMessage.Text | WSMessage.Binary =>
                  state c' = Connected
                  /\ send_buffer c' = send_buffer c
                  /\ upcalls s' = (upcalls s ++ [message_callback id message])%list
              | WSMessage.Close =>
                  state c' = Closed
                  /\ send_buffer c'
                     = (send_buffer c
                        ++ [to_string {| WSFrame.fin := true;
                                         WSFrame.opcode := WSFrame.Close;
                                         WSFrame.payload := WSMessage.payload message |}])%list
                  /\ upcalls s' = upcalls s
              | WSMessage.Ping =>
                  state c' = Connected
                  /\ send_buffer c'
                     = (send_buffer c
                        ++ [to_string {| WSFrame.fin := true;
                                         WSFrame.opcode := WSFrame.Pong;
                                         WSFrame.payload := "" |}])%list
                  /\ upcalls s' = upcalls s
              | WSMessage.Pong =>
                  state c' = Connected
                  /\ send_buffer c' = send_buffer c
                  /\ upcalls s' = upcalls s
              end
       end.
Proof.
  intros Hc Hst Hread Hdata Hdec.
  destruct (read_callback id s) as [[r s1]|e] eqn:H.
  - exec_server_with
      ltac:(try rewrite Hread in H; try rewrite Hdata in H; try rewrite Hst in H;
            try rewrite Hdec in H) H Hc.
    all: injection H as <- <-.
    all: eexists _, _; split; [reflexivity|].
    all: cbn [connections_ closed_connections_ active_ upcalls].
    all: rewrite ?alter_alter_eq, (alter_present _ _ _ _ Hc).
    all: split; [reflexivity|].
    all: unfold compose;
      cbn [set_socket set_state set_ws_handshake_parser set_ws_message_parser
           set_send_buffer note_queued emplace_back
           socket state ws_handshake_parser ws_message_parser send_buffer queued
           WSMessageParser_pop complete_messages ws_pending tail].
    all: repeat match goal with
                | H : WSMessage.type _ = _ |- _ => rewrite H
                end.
    all: rewrite ?Hst; repeat split; try reflexivity.
    all: try (now rewrite app_nil_r).
  - exfalso.
    exec_server_with
      ltac:(try rewrite Hread in H; try rewrite Hdata in H; try rewrite Hst in H;
            try rewrite Hdec in H) H Hc.
Qed.

Section LoopProperties.

Context {E : Collaborators}.

Variable T : SocketType.

Lemma loop_once_reinit (ready : list Event) (s s' : WSServer) :
  loop_once T ready s = Ok (tt, s') ->
  size (connections_ s') < MAX_CONNECTION_NUM -> active_ s' = true.
Proof.
  intros H. unfold loop_once in H. unfold bind at 1 in H.
  destruct (poll T ready s) as [[[] s1]|]; [|discriminate].
  unfold bind at 1 in H.
  destruct (collect s1) as [[[] s2]|]; [|discriminate].
  unfold bind at 1, get in H.
  destruct (active_ s2) eqn:Ha; cbn [negb andb] in H.
  - injection H as <-. auto.
  - destruct (Nat.ltb_spec (size (connections_ s2)) MAX_CONNECTION_NUM) as [Hlt|Hge];
      injection H as <-; [reflexivity | intros; lia].
Qed.

Lemma poll_reachable (ready : list Event) (s s' : WSServer) :
  poll T ready s = Ok (tt, s') -> reachable_in_poll T s -> reachable_in_poll T s'.
Proof.
  revert s. induction ready as [|ev later IH]; intros s H Hr.
  - injection H as <-. exact Hr.
  - cbn [poll] in H. unfold bind at 1 in H.
    destruct (dispatch T ev s) as [[[] s1]|] eqn:Hd; [|discriminate].
    apply (IH s1 H). exact (in_poll_dispatch T s ev s1 Hr Hd).
Qed.

(** C5.  In every state the server is in after construction or after an
    iteration of the loop (that is, after each garbage collection), the
    listener's flag is set exactly when the table holds fewer connections
    than the cap.  The accept callback clears the flag, and asks for the
    listener's action to be cancelled, exactly when the table has reached the
    cap after the insertion; and an iteration that ends below the cap ends
    with the flag set. *)
Theorem C5_listener_active_iff_below_cap (s : WSServer) :
  reachable T s ->
  (active_ s = true <-> size (connections_ s) < MAX_CONNECTION_NUM)
  /\ (forall client s0 r s1,
        accept_callback client s0 = Ok (r, s1) ->
        (MAX_CONNECTION_NUM <= size (connections_ s1) ->
         active_ s1 = false /\ r = CancelAll)
        /\ (size (connections_ s1) < MAX_CONNECTION_NUM ->
            active_ s1 = active_ s0 /\ r = Continue))
  /\ (forall ready s0 s1,
        loop_once T ready s0 = Ok (tt, s1) ->
        size (connections_ s1) < MAX_CONNECTION_NUM -> active_ s1 = true).
Proof.
  intros Hr. split; [exact (proj1 (reachable_ok T s Hr))|]. split.
  - intros client s0 r s1 Hacc.
    destruct (accept_callback_effect _ _ _ _ Hacc) as (_ & Ha & Hres & _).
    rewrite Ha, Hres.
    destruct (Nat.leb_spec MAX_CONNECTION_NUM (size (connections_ s1)));
      split; intros; try lia; auto.
  - intros ready s0 s1. apply loop_once_reinit.
Qed.

(** C9 (as amended).  At every point of a run, between any two callbacks,
    the server itself has appended at most one Close frame for each
    connection in the table, through [close_connection] or through the echo
    of the read action; and none while the connection is NotConnected,
    Connecting or Connected.  Close frames that the application hands to
    [queue_frame] are not bounded. *)
Theorem C9_one_close_frame_by_server (s : WSServer) (id : N) (conn : Connection) :
  reachable_in_poll T s ->
  connections_ s !! id = Some conn ->
  server_closes conn <= 1
  /\ (state conn = NotConnected \/ state conn = Connecting \/ state conn = Connected ->
      server_closes conn = 0).
Proof.
  intros Hr Hc.
  pose proof (proj2 (reachable_in_poll_ok T s Hr) id conn Hc) as Hok.
  unfold close_frames_ok in Hok. split.
  - destruct (state conn); cbn [close_budget] in Hok; lia.
  - intros [H | [H | H]]; rewrite H in Hok; cbn [close_budget] in Hok; lia.
Qed.

End LoopProperties.

#[local] Existing Instance Reference.collaborators.

Lemma after_reachable (ready : list Event) (s : WSServer) :
  reachable_in_poll TCPSocket s -> reachable_in_poll TCPSocket (Scenario.after ready s).
Proof.
  intros Hr. unfold Scenario.after.
  destruct (poll TCPSocket ready s) as [[[] s']|] eqn:Hp; [|exact Hr].
  exact (poll_reachable TCPSocket ready s s' Hp Hr).
Qed.

Lemma after_iteration_reachable (ready : list Event) (s : WSServer) :
  reachable TCPSocket s -> reachable TCPSocket (Scenario.after_iteration ready s).
Proof.
  intros Hr. unfold Scenario.after_iteration.
  destruct (loop_once TCPSocket ready s) as [[[] s']|] eqn:Hl; [|exact Hr].
  exact (reachable_loop_once TCPSocket s ready s' Hr Hl).
Qed.

Lemma connection_lookup (id : N) (s : WSServer) :
  Scenario.has_connection id s = true ->
  connections_ s !! id = Some (Scenario.connection id s).
Proof.
  unfold Scenario.has_connection, Scenario.connection.
  destruct (connections_ s !! id); [reflexivity | discriminate].
Qed.

Lemma C3_witness :
  exists s',
    drop_connection 0%N Scenario.connected = Ok (tt, s')
    /\ connections_ s'
       = <[0%N := set_state Closed (Scenario.connection 0%N Scenario.connected)]>
           (connections_ Scenario.connected)
    /\ closed_connections_ s' = {[0%N]} ∪ closed_connections_ Scenario.connected
    /\ upcalls s' = (upcalls Scenario.connected ++ [close_callback 0%N])%list.
Proof.
  destruct (proj2 (C3_drop_connection (E := Reference.collaborators)
                     Scenario.connected 0%N)
                  (Scenario.connection 0%N Scenario.connected))
    as (s' & Hdrop & Htable & Hclosed & Hup & _).
  - apply connection_lookup. vm_compute. reflexivity.
  - exists s'. repeat split; assumption.
Defined.

Lemma C5_witness :
  active_ (Scenario.after_iteration
             [listener_ready (Scenario.upgrading_client [])] Scenario.fresh)
  = true
  <-> size (connections_
              (Scenario.after_iteration
                 [listener_ready (Scenario.upgrading_client [])] Scenario.fresh))
      < MAX_CONNECTION_NUM.
Proof.
  apply (C5_listener_active_iff_below_cap (E := Reference.collaborators) TCPSocket).
  apply after_iteration_reachable. apply reachable_new.
Defined.

Lemma C9_witness :
  server_closes (Scenario.connection 0%N Scenario.closed_twice) <= 1.
Proof.
  apply (proj1 (C9_one_close_frame_by_server (E := Reference.collaborators)
                  TCPSocket Scenario.closed_twice 0%N
                  (Scenario.connection 0%N Scenario.closed_twice)
                  (after_reachable _ _
                     (after_reachable _ _
                        (in_poll_start TCPSocket _
                           (reachable_new TCPSocket "0.0.0.0:8080"))))
                  (connection_lookup 0%N Scenario.closed_twice
                     ltac:(vm_compute; reflexivity)))).
Defined.

Lemma C2_witness :
  exists s' c',
    read_callback 0%N Scenario.two_texts_pending = Ok (Continue, s')
    /\ connections_ s' = <[0%N := c']> (connections_ Scenario.two_texts_pending)
    /\ complete_messages (ws_message_parser c') = [Scenario.text "yo"]
    /\ state c' = Connected
    /\ upcalls s'
       = (upcalls Scenario.two_texts_pending
          ++ [message_callback 0%N (Scenario.text "hi")])%list.
Proof.
  destruct (C2_read_connected_one_message (E := Reference.collaborators)
              0%N Scenario.two_texts_pending
              (Scenario.connection 0%N Scenario.two_texts_pending)
              (Reference.client_frame 1 "hi" +:+ Reference.client_frame 1 "yo")
              (snd (Socket_read
                      (socket (Scenario.connection 0%N Scenario.two_texts_pending))))
              "" [Scenario.text "hi"; Scenario.text "yo"]
              (connection_lookup 0%N Scenario.two_texts_pending
                 ltac:(vm_compute; reflexivity))
              ltac:(vm_compute; reflexivity)
              ltac:(vm_compute; reflexivity) ltac:(vm_compute; reflexivity)
              ltac:(vm_compute; reflexivity))
    as (s' & c' & Hrun & Hconn & _ & _ & _ & _ & Hqueue & Hstate & _ & Hup).
  exists s', c'. repeat split; assumption.
Defined.

(** C2, as stated, fails: one read delivers two Text frames, the parser
    completes both messages, and the dispatch hands only the first to
    [message_callback]; the second stays in the parser's queue.  Handling
    every completed message, as the specification has it, would have invoked
    [message_callback] twice. *)
Lemma C2_counterexample :
  (state <$> connections_ Scenario.two_texts_pending !! 0%N) = Some Connected
  /\ @ws_decode Reference.collaborators ""
       (Reference.client_frame 1 "hi" +:+ Reference.client_frame 1 "yo")
     = ("", [Scenario.text "hi"; Scenario.text "yo"], None)
  /\ (upcalls ∘ snd <$> read_callback 0%N Scenario.two_texts_pending)
     = Ok [open_callback 0%N; message_callback 0%N (Scenario.text "hi")]
  /\ (complete_messages ∘ ws_message_parser ∘ Scenario.connection 0%N ∘ snd
        <$> read_callback 0%N Scenario.two_texts_pending)
     = Ok [Scenario.text "yo"]
  /\ (upcalls ∘ snd <$> read_connected_as_specified 0%N Scenario.two_texts_pending)
     = Ok [open_callback 0%N; message_callback 0%N (Scenario.text "hi");
           message_callback 0%N (Scenario.text "yo")].
Proof. repeat split; vm_compute; reflexivity. Qed.

(** C3, as stated, fails: two calls of [drop_connection] on a connection
    that is in the table invoke [close_callback] twice. *)
Lemma C3_counterexample :
  (state <$> connections_ Scenario.connected !! 0%N) = Some Connected
  /\ (upcalls ∘ snd <$> drop_connection 0%N Scenario.connected)
     = Ok [open_callback 0%N; close_callback 0%N]
  /\ (upcalls ∘ snd <$> (drop_connection 0%N ;; drop_connection 0%N) Scenario.connected)
     = Ok [open_callback 0%N; close_callback 0%N; close_callback 0%N]
  /\ (close_upcalls 0%N ∘ upcalls ∘ snd
        <$> (drop_connection 0%N ;; drop_connection 0%N) Scenario.connected)
     = Ok 2.
Proof. repeat split; vm_compute; reflexivity. Qed.

(** C9, as stated, fails: [queue_frame] appends any frame while the state is
    Connected.  The application queues a Close frame and then calls
    [close_connection]: two Close frames stand in the send buffer, one of
    them the server's own. *)
Lemma C9_counterexample :
  returns (poll TCPSocket
             (listener_ready (Scenario.upgrading_client [])
                :: (Scenario.handshake
                      ++ [call_queue_frame 0%N Scenario.close_frame;
                          call_close_connection 0%N])%list)
             Scenario.fresh)
  = true
  /\ send_buffer (Scenario.connection 0%N Scenario.closed_twice)
     = [Reference.frame_to_string Scenario.close_frame;
        Reference.frame_to_string Scenario.close_frame]
  /\ close_frames (Scenario.connection 0%N Scenario.closed_twice) = 2
  /\ server_closes (Scenario.connection 0%N Scenario.closed_twice) = 1
  /\ state (Scenario.connection 0%N Scenario.closed_twice) = Closing.
Proof. repeat split; vm_compute; reflexivity. Qed.

(** Sixty clients fill the table and the listener closes; a sixty-first is
    not accepted.  When one of them goes away, the next iteration collects
    it and opens the listener again. *)
Example listener_closes_at_the_cap :
  let full :=
    loop_once TCPSocket
      (List.repeat (listener_ready (Reference.client [] [])) 61) Scenario.fresh in
  (active_ ∘ snd <$> full) = Ok false
  /\ (size ∘ connections_ ∘ snd <$> full) = Ok 60
  /\ (active_ ∘ snd <$> (full ≫= fun '(_, s) => loop_once TCPSocket [read_ready 7%N] s))
     = Ok true
  /\ (size ∘ connections_ ∘ snd
        <$> (full ≫= fun '(_, s) => loop_once TCPSocket [read_ready 7%N] s))
     = Ok 59.
Proof. repeat split; vm_compute; reflexivity. Qed.

(** * Further properties *)

(** ** The request line and the header values *)

Lemma prefix_append (a b : string) :
  String.prefix a b = true <-> exists c, b = a +:+ c.
Proof.
  revert b. induction a as [|x a IH]; intros b; simpl.
  - split; [intros _; exists b; reflexivity | intros _; now destruct b].
  - destruct b as [|y b]; [split; [discriminate | intros [c Hc]; discriminate]|].
    simpl. destruct (Ascii.ascii_dec x y) as [->|Hne].
    + rewrite IH. split; intros [c Hc]; exists c.
      * rewrite append_cons. now f_equal.
      * rewrite append_cons in Hc. now injection Hc.
    + split; [discriminate|]. intros [c Hc]. rewrite append_cons in Hc.
      injection Hc as Hxy _. congruence.
Qed.

Lemma find_from_None (needle s : string) (i j : nat) :
  find_from needle s i = None -> find_from needle s j = None.
Proof.
  revert i j. induction s as [|c s IH]; intros i j; cbn [find_from].
  - destruct (String.prefix needle ""); [discriminate | reflexivity].
  - destruct (String.prefix needle (String c s)); [discriminate | apply IH].
Qed.

(** [find] succeeds exactly on the strings that contain the needle. *)
Lemma find_contains (s needle : string) :
  find s needle <> None <-> exists pre post, s = pre +:+ needle +:+ post.
Proof.
  unfold find. generalize 0. induction s as [|c s IH]; intros i.
  - cbn [find_from]. destruct (String.prefix needle "") eqn:Hp.
    + split; [intros _ | discriminate].
      apply prefix_append in Hp as [post Hp]. exists "", post. exact Hp.
    + split; [congruence|]. intros (pre & post & H).
      destruct pre; [|discriminate].
      assert (String.prefix needle "" = true) by (apply prefix_append; eauto).
      congruence.
  - cbn [find_from]. destruct (String.prefix needle (String c s)) eqn:Hp.
    + split; [intros _ | discriminate].
      apply prefix_append in Hp as [post Hp]. exists "", post. exact Hp.
    + rewrite IH. split; intros (pre & post & H).
      * exists (String c pre), post. rewrite append_cons. now f_equal.
      * destruct pre as [|d pre].
        -- assert (String.prefix needle (String c s) = true)
             by (apply prefix_append; eauto).
           congruence.
        -- rewrite append_cons in H. injection H as _ H. eauto.
Qed.

Lemma rfind_from_None (needle s : string) (i j : nat) :
  rfind_from needle s i = None -> rfind_from needle s j = None.
Proof.
  revert i j. induction s as [|c s IH]; intros i j; cbn [rfind_from].
  - destruct (String.prefix needle ""); [discriminate | reflexivity].
  - destruct (rfind_from needle s (S i)) eqn:Hr; [discriminate|].
    rewrite (IH _ (S j) Hr).
    destruct (String.prefix needle (String c s)); [discriminate | reflexivity].
Qed.

Lemma substr_from_after (pre tok : string) :
  substr_from (pre +:+ " " +:+ tok) (String.length pre + 1) = tok.
Proof.
  unfold substr_from. induction pre as [|c pre IH].
  - change ("" +:+ " " +:+ tok) with (String " "%char tok).
    cbn [String.length Nat.add Nat.sub String.substring].
    rewrite Nat.sub_0_r. apply substring_all.
  - rewrite append_cons. cbn [String.length Nat.add String.substring Nat.sub]. exact IH.
Qed.

(** A position found by [rfind] splits the line at a space. *)
Lemma rfind_from_space_Some (s : string) (i j : nat) :
  rfind_from " " s i = Some j ->
  exists pre tok, s = pre +:+ " " +:+ tok /\ j = i + String.length pre.
Proof.
  revert i j. induction s as [|c s IH]; intros i j; cbn [rfind_from].
  - destruct (String.prefix " " "") eqn:Hp; [|discriminate].
    apply prefix_append in Hp as [post Hp]. discriminate Hp.
  - destruct (rfind_from " " s (S i)) as [k|] eqn:Hr.
    + intros [= <-]. destruct (IH _ _ Hr) as (pre & tok & -> & ->).
      exists (String c pre), tok. rewrite append_cons.
      split; [reflexivity|]. cbn [String.length]. lia.
    + destruct (String.prefix " " (String c s)) eqn:Hp; [|discriminate].
      intros [= <-]. apply prefix_append in Hp as [post Hp].
      exists "", post. split; [exact Hp | cbn [String.length]; lia].
Qed.

(** After a token without a space, [rfind] finds the space before it. *)
Lemma rfind_from_space_last (pre tok : string) (i : nat) :
  rfind_from " " tok 0 = None ->
  rfind_from " " (pre +:+ " " +:+ tok) i = Some (i + String.length pre).
Proof.
  intros Htok. revert i. induction pre as [|c pre IH]; intros i.
  - change ("" +:+ " " +:+ tok) with (String " "%char tok). cbn [rfind_from].
    rewrite (rfind_from_None _ _ _ (S i) Htok).
    assert (Hp : String.prefix " " (String " "%char tok) = true)
      by (apply prefix_append; exists tok; reflexivity).
    rewrite Hp. cbn [String.length]. f_equal. lia.
  - rewrite append_cons. cbn [rfind_from]. rewrite IH.
    cbn [String.length]. f_equal. lia.
Qed.

Lemma substr_GET (line : string) :
  substr line 0 3 = "GET" <-> exists rest, line = "GET" +:+ rest.
Proof.
  unfold substr. split.
  - destruct line as [|a [|b [|c rest]]]; simpl; try discriminate.
    intros H. exists rest. injection H as Ha Hb Hc _. subst a b c. reflexivity.
  - intros [rest ->]. simpl. now destruct rest.
Qed.

Lemma protocol_token_suffix (line tok : string) :
  rfind_from " " tok 0 = None ->
  protocol_token line = Some tok <-> exists pre, line = pre +:+ " " +:+ tok.
Proof.
  intros Htok. unfold protocol_token, rfind. split.
  - destruct (rfind_from " " line 0) as [j|] eqn:Hr; [|discriminate].
    destruct (rfind_from_space_Some _ _ _ Hr) as (pre & tok' & -> & ->).
    cbn [Nat.add]. rewrite substr_from_after. intros [= ->]. eauto.
  - intros [pre ->]. rewrite rfind_from_space_last by exact Htok.
    cbn [Nat.add]. now rewrite substr_from_after.
Qed.

Section ValidatorFacts.

Variable eqs : string -> string -> bool.

Lemma has_header_get (request : HTTPRequest) (name : string) :
  has_header eqs request name = true
  <-> exists v, get_header_value eqs request name = Ok v.
Proof.
  unfold has_header, get_header_value.
  induction (headers request) as [|h hs IH]; simpl.
  - split; [discriminate | intros [v Hv]; discriminate].
  - destruct (eqs (key h) name); simpl; [split; eauto | exact IH].
Qed.

(** X1.  The validator never throws, and it accepts exactly the requests
    whose request line starts with [GET] and ends with a space followed by
    [HTTP/1.1] or [HTTP/2], whose [Connection] header has a value that
    contains [Upgrade], whose [Upgrade] header has the value [websocket],
    and which carry a [Sec-WebSocket-Key] header. *)
Theorem X1_validator_accepts_exactly (request : HTTPRequest) :
  (is_valid_handshake_request eqs request = Ok true
   \/ is_valid_handshake_request eqs request = Ok false)
  /\ (is_valid_handshake_request eqs request = Ok true
      <-> (exists rest, first_line request = "GET" +:+ rest)
          /\ (exists pre, first_line request = pre +:+ " HTTP/1.1"
                          \/ first_line request = pre +:+ " HTTP/2")
          /\ (exists v pre post,
                 get_header_value eqs request "Connection" = Ok v
                 /\ v = pre +:+ "Upgrade" +:+ post)
          /\ get_header_value eqs request "Upgrade" = Ok "websocket"
          /\ has_header eqs request "Sec-WebSocket-Key" = true).
Proof.
  split.
  - destruct (is_valid_handshake_request_returns eqs request) as [[|] H]; auto.
  - split.
    + intros H.
      destruct (is_valid_handshake_request_true eqs request H)
        as (Hget & Hproto & (v & Hv & Hfind) & Hup & Hkey).
      split; [now apply substr_GET|]. split; [|split; [|split; assumption]].
      * destruct Hproto as [Hp|Hp];
          apply protocol_token_suffix in Hp as [pre Hp]; try reflexivity;
          exists pre; [left | right]; exact Hp.
      * apply find_contains in Hfind as (pre & post & Hvv). eauto.
    + intros (Hget & (pre & Hproto) & (v & p & q & Hv & Hvv) & Hup & Hkey).
      unfold is_valid_handshake_request.
      apply substr_GET in Hget. rewrite Hget. cbn [String.eqb Ascii.eqb negb].
      assert (Hp : protocol_token (first_line request) = Some "HTTP/1.1"
                   \/ protocol_token (first_line request) = Some "HTTP/2").
      { destruct Hproto as [Hp|Hp]; [left | right];
          (apply protocol_token_suffix; [reflexivity | exists pre; exact Hp]). }
      unfold protocol_token in Hp.
      destruct (rfind (first_line request) " ") as [i|];
        [|destruct Hp; discriminate].
      assert (Hrule : negb (substr_from (first_line request) (i + 1) =? "HTTP/1.1")
                      && negb (substr_from (first_line request) (i + 1) =? "HTTP/2")
                      = false).
      { destruct Hp as [[= ->]|[= ->]]; reflexivity. }
      rewrite Hrule.
      assert (Hc : has_header eqs request "Connection" = true)
        by (apply has_header_get; eauto).
      assert (Hu : has_header eqs request "Upgrade" = true)
        by (apply has_header_get; eauto).
      rewrite Hc, Hv, Hu, Hup, Hkey. cbn [negb mbind result_bind mret result_ret].
      assert (Hf : find v "Upgrade" <> None) by (apply find_contains; eauto).
      destruct (find v "Upgrade"); [reflexivity | congruence].
Qed.

(** X2.  The responder never throws and answers with exactly one of three
    statuses: 400 when the validator rejects the request, 403 when the
    validator accepts it and there is no [Origin] header, 101 when the
    validator accepts it and there is one.  Every response records the
    request, has its headers closed and an empty body. *)
Theorem X2_responder_three_ways (request : HTTPRequest) :
  exists response,
    create_handshake_response eqs request = Ok response
    /\ response_request response = Some request
    /\ headers_done response = true
    /\ response_body response = ""
    /\ (status_code response = "400"
        <-> is_valid_handshake_request eqs request = Ok false)
    /\ (status_code response = "403"
        <-> is_valid_handshake_request eqs request = Ok true
            /\ has_header eqs request "Origin" = false)
    /\ (status_code response = "101"
        <-> is_valid_handshake_request eqs request = Ok true
            /\ has_header eqs request "Origin" = true).
Proof.
  destruct (create_handshake_response_cases eqs request)
    as [[Hv Hr] | [(Hv & Ho & Hr) | (Hv & Ho & k & _ & Hr)]];
    eexists; (split; [exact Hr|]); repeat (split; [reflexivity|]);
    rewrite ?status_code_error_403, ?status_code_upgrade, Hv, ?Ho;
    repeat split; try reflexivity; try discriminate;
    try (intros [? ?]; discriminate); try (intros [= ?]; discriminate).
Qed.

End ValidatorFacts.

(** ** Counting and draining the queued bytes *)

Lemma length_append (a b : string) :
  String.length (a +:+ b) = String.length a + String.length b.
Proof.
  induction a as [|c a IH]; [reflexivity|].
  rewrite append_cons. cbn [String.length]. now rewrite IH.
Qed.

Lemma total_size_from (buffers : list string) (acc : N) :
  fold_left (fun total buffer => uint_add total (N.of_nat (String.length buffer)))
            buffers (acc mod 2 ^ 32)%N
  = ((acc + N.of_nat (String.length (concat_all buffers))) mod 2 ^ 32)%N.
Proof.
  revert acc. induction buffers as [|b rest IH]; intros acc.
  - cbn [fold_left concat_all fold_right String.length]. now rewrite N.add_0_r.
  - cbn [fold_left]. unfold uint_add at 2.
    rewrite N.Div0.add_mod_idemp_l, IH.
    change (concat_all (b :: rest)) with (b +:+ concat_all rest).
    rewrite length_append, Nat2N.inj_add. f_equal. lia.
Qed.

Lemma total_size_bytes (buffers : list string) :
  total_size buffers = (N.of_nat (String.length (concat_all buffers)) mod 2 ^ 32)%N.
Proof.
  unfold total_size. change 0%N with (0 mod 2 ^ 32)%N at 1.
  rewrite total_size_from. reflexivity.
Qed.

Lemma concat_all_app (a b : list string) :
  concat_all (a ++ b) = concat_all a +:+ concat_all b.
Proof.
  induction a as [|x a IH]; [reflexivity|].
  change (concat_all ((x :: a) ++ b)) with (x +:+ concat_all (a ++ b)).
  change (concat_all (x :: a)) with (x +:+ concat_all a).
  now rewrite IH, append_assoc.
Qed.

Lemma total_size_app (a b : list string) :
  total_size (a ++ b) = uint_add (total_size a) (total_size b).
Proof.
  rewrite !total_size_bytes, concat_all_app, length_append, Nat2N.inj_add.
  unfold uint_add. now rewrite <- N.Div0.add_mod.
Qed.

Lemma write_secure_all (buffers : list string) (sock : Socket) :
  write_secure buffers sock
  = ([], {| peer_address := peer_address sock; incoming := incoming sock;
            room := room sock; wire := wire sock;
            write_buffer := write_buffer sock ++ buffers |}).
Proof.
  revert sock. induction buffers as [|b rest IH]; intros sock.
  - cbn [write_secure]. rewrite app_nil_r. now destruct sock.
  - cbn [write_secure]. rewrite IH. cbn [Socket_ezwrite peer_address incoming room wire
                                             write_buffer].
    now rewrite <- app_assoc.
Qed.


Section ConnectionFacts.

Context {E : Collaborators}.

(** X3.  [write()] on a secure transport hands every queued buffer to the
    session, oldest first, behind what the session already holds, and leaves
    the send buffer empty; nothing reaches the wire by it, the state stays,
    and the byte count that [buffer_bytes] reports for a secure transport
    (queue plus session, in [unsigned int] arithmetic) is the same before
    and after. *)
Theorem X3_secure_write_moves_the_queue (conn : Connection) :
  send_buffer (Connection_write NBSecureSocket conn) = []
  /\ write_buffer (socket (Connection_write NBSecureSocket conn))
     = (write_buffer (socket conn) ++ send_buffer conn)%list
  /\ wire (socket (Connection_write NBSecureSocket conn)) = wire (socket conn)
  /\ state (Connection_write NBSecureSocket conn) = state conn
  /\ uint_add (Connection_buffer_bytes (Connection_write NBSecureSocket conn))
              (Socket_buffer_bytes (socket (Connection_write NBSecureSocket conn)))
     = uint_add (Connection_buffer_bytes conn) (Socket_buffer_bytes (socket conn)).
Proof.
  unfold Connection_write. rewrite write_secure_all.
  cbn [set_socket set_send_buffer send_buffer socket state write_buffer wire].
  repeat (split; [reflexivity|]).
  unfold Connection_buffer_bytes, Socket_buffer_bytes.
  cbn [send_buffer socket write_buffer].
  rewrite total_size_app. unfold uint_add at 1 3.
  change (total_size []) with 0%N. rewrite N.add_0_l.
  unfold uint_add. rewrite N.Div0.mod_mod. f_equal. lia.
Qed.

(** X4.  [Connection::buffer_bytes] is the number of queued bytes reduced
    modulo 2^32 (the counter is an [unsigned int]): exact below 4 GiB, and
    wrapped from there on.  [WSServer<TCPSocket>::buffer_bytes] returns that
    number for a connection in the table and changes nothing;
    [WSServer<NBSecureSocket>::buffer_bytes] adds the session's count, again
    modulo 2^32. *)
Theorem X4_buffer_bytes_counts_modulo (s : WSServer) (id : N) (conn : Connection) :
  connections_ s !! id = Some conn ->
  Connection_buffer_bytes conn
  = (N.of_nat (String.length (concat_all (send_buffer conn))) mod 2 ^ 32)%N
  /\ ((N.of_nat (String.length (concat_all (send_buffer conn))) < 2 ^ 32)%N ->
      Connection_buffer_bytes conn
      = N.of_nat (String.length (concat_all (send_buffer conn))))
  /\ buffer_bytes TCPSocket id s = Ok (Connection_buffer_bytes conn, s)
  /\ buffer_bytes NBSecureSocket id s
     = Ok ((N.of_nat (String.length (concat_all (send_buffer conn)))
            + N.of_nat (String.length (concat_all (write_buffer (socket conn)))))
           mod 2 ^ 32, s)%N.
Proof.
  intros Hc. unfold Connection_buffer_bytes. split; [apply total_size_bytes|].
  split; [intros Hlt; rewrite total_size_bytes; now apply N.mod_small|].
  unfold buffer_bytes, bind, conn_at, ret. rewrite Hc. split; [reflexivity|].
  unfold Connection_buffer_bytes, Socket_buffer_bytes, uint_add.
  rewrite !total_size_bytes, <- N.Div0.add_mod. reflexivity.
Qed.

End ConnectionFacts.

Lemma X4_witness :
  Connection_buffer_bytes (Scenario.connection 0%N Scenario.closed_twice)
  = (N.of_nat
       (String.length
          (concat_all (send_buffer (Scenario.connection 0%N Scenario.closed_twice))))
     mod 2 ^ 32)%N.
Proof.
  apply (proj1 (X4_buffer_bytes_counts_modulo (E := Reference.collaborators)
                  Scenario.closed_twice 0%N
                  (Scenario.connection 0%N Scenario.closed_twice)
                  (connection_lookup 0%N Scenario.closed_twice
                     ltac:(vm_compute; reflexivity)))).
Defined.



(** X6.  When the socket has room for every queued buffer, one [write()] on
    a plain transport empties the send buffer, puts the buffers on the wire
    in queue order, and uses one socket write per buffer. *)
Theorem X6_plain_write_drains (buffers : list string) (sock : Socket) :
  room_for buffers (room sock) ->
  fst (write_plain buffers sock) = []
  /\ wire (snd (write_plain buffers sock)) = wire sock +:+ concat_all buffers
  /\ room (snd (write_plain buffers sock)) = skipn (List.length buffers) (room sock).
Proof.
  revert sock. induction buffers as [|b rest IH]; intros sock Hroom.
  - cbn [write_plain fst snd concat_all fold_right List.length skipn].
    now rewrite append_empty_r.
  - rewrite write_plain_cons.
    destruct (room sock) as [|r later] eqn:Hr; [contradiction|].
    destruct Hroom as [Hlen Hrest].
    assert (Hfull : fst (Socket_write b sock) = String.length b)
      by (unfold Socket_write; cbn [fst]; rewrite Hr; cbn [hd]; lia).
    rewrite Hfull, Nat.eqb_refl. cbn [negb].
    assert (Hroom' : room (snd (Socket_write b sock)) = later)
      by (unfold Socket_write; cbn [snd room]; now rewrite Hr).
    destruct (IH (snd (Socket_write b sock))) as (H1 & H2 & H3);
      [now rewrite Hroom'|].
    split; [exact H1|]. split.
    + rewrite H2, Socket_write_wire, Hfull. unfold substr. rewrite substring_all.
      change (concat_all (b :: rest)) with (b +:+ concat_all rest).
      apply append_assoc.
    + rewrite H3, Hroom'. reflexivity.
Qed.

Lemma X6_witness :
  fst (write_plain ["hello"; ""; "world"] (Reference.client [] [5; 0; 9])) = []
  /\ wire (snd (write_plain ["hello"; ""; "world"] (Reference.client [] [5; 0; 9])))
     = wire (Reference.client [] [5; 0; 9]) +:+ concat_all ["hello"; ""; "world"]
  /\ room (snd (write_plain ["hello"; ""; "world"] (Reference.client [] [5; 0; 9])))
     = skipn (List.length ["hello"; ""; "world"]) (room (Reference.client [] [5; 0; 9])).
Proof.
  apply (X6_plain_write_drains ["hello"; ""; "world"] (Reference.client [] [5; 0; 9])).
  vm_compute. repeat split; lia.
Defined.

(** ** The public methods, one after another *)

Section MethodFacts.

Context {E : Collaborators}.

Variable T : SocketType.

(** The server with one entry of the table replaced. *)
Lemma queue_frame_Connected (who : Origin) (id : N) (frame : WSFrame.t)
      (s : WSServer) (conn : Connection) :
  connections_ s !! id = Some conn ->
  state conn = Connected ->
  queue_frame who id frame s
  = Ok (true,
        set_connections
          (<[id := note_queued who frame (emplace_back (to_string frame) conn)]>
             (connections_ s)) s).
Proof.
  intros Hc Hst. unfold queue_frame, bind, conn_at, update, modify, ret.
  rewrite Hc, Hst. cbn [State_eqb negb].
  now rewrite (alter_present _ _ _ _ Hc).
Qed.

Lemma queue_frame_refused (who : Origin) (id : N) (frame : WSFrame.t)
      (s : WSServer) (conn : Connection) :
  connections_ s !! id = Some conn ->
  state conn <> Connected ->
  queue_frame who id frame s = Ok (false, s).
Proof.
  intros Hc Hst. unfold queue_frame, bind, conn_at, ret. rewrite Hc.
  destruct (State_eqb (state conn) Connected) eqn:Heq; [|reflexivity].
  apply State_eqb_eq in Heq. contradiction.
Qed.

(** X7.  Frames handed to [queue_frame] one after another on a Connected
    connection are appended to its send buffer in the order of the calls,
    behind what was queued before, and change nothing else of the
    connection; on a connection in any other state every call is refused and
    the server stays as it is. *)
Theorem X7_queue_frame_keeps_call_order (frames : list WSFrame.t) (s : WSServer)
        (id : N) (conn : Connection) :
  connections_ s !! id = Some conn ->
  (state conn = Connected ->
   exists s' conn',
     poll T (List.map (call_queue_frame id) frames) s = Ok (tt, s')
     /\ connections_ s' !! id = Some conn'
     /\ send_buffer conn' = (send_buffer conn ++ List.map to_string frames)%list
     /\ state conn' = Connected
     /\ socket conn' = socket conn
     /\ (forall other, other <> id -> connections_ s' !! other = connections_ s !! other)
     /\ upcalls s' = upcalls s)
  /\ (state conn <> Connected ->
      poll T (List.map (call_queue_frame id) frames) s = Ok (tt, s)).
Proof.
  intros Hc. split.
  - revert s conn Hc. induction frames as [|f rest IH]; intros s conn Hc Hst.
    + exists s, conn. cbn [List.map poll]. rewrite app_nil_r. repeat split; auto.
    + cbn [List.map poll dispatch]. unfold bind at 1 2.
      rewrite (queue_frame_Connected _ _ _ _ _ Hc Hst). cbn [ret].
      edestruct (IH (set_connections
                       (<[id := note_queued by_application f
                                  (emplace_back (to_string f) conn)]>
                          (connections_ s)) s)) as (s' & c' & Hp & Hc' & Hb & Hs & Hk & Ho & Hu).
      * cbn [connections_ set_connections]. apply lookup_insert_eq.
      * exact Hst.
      * exists s', c'. split; [exact Hp|]. split; [exact Hc'|].
        split; [rewrite Hb; cbn; now rewrite <- app_assoc|].
        split; [exact Hs|]. split; [exact Hk|]. split; [|exact Hu].
        intros other Hne. rewrite (Ho other Hne).
        cbn [connections_ set_connections]. now apply lookup_insert_ne.
  - intros Hst. induction frames as [|f rest IH]; [reflexivity|].
    cbn [List.map poll dispatch]. unfold bind at 1 2.
    rewrite (queue_frame_refused _ _ _ _ _ Hc Hst). cbn [ret]. exact IH.
Qed.

Lemma close_connection_Connected (id : N) (s : WSServer) (conn : Connection) :
  connections_ s !! id = Some conn ->
  state conn = Connected ->
  close_connection id s
  = Ok (tt,
        set_connections
          (<[id := set_state Closing
                     (note_queued by_close_connection empty_close_frame
                        (emplace_back (to_string empty_close_frame) conn))]>
             (connections_ s)) s).
Proof.
  intros Hc Hst. unfold close_connection. unfold bind at 1. unfold conn_at at 1.
  rewrite Hc, Hst. cbn [State_eqb negb]. unfold bind at 1.
  rewrite (queue_frame_Connected _ _ _ _ _ Hc Hst).
  unfold update, modify. cbn [connections_ set_connections].
  rewrite alter_insert_eq. reflexivity.
Qed.

Lemma close_connection_refused (id : N) (s : WSServer) (conn : Connection) :
  connections_ s !! id = Some conn ->
  state conn <> Connected ->
  close_connection id s = Ok (tt, s).
Proof.
  intros Hc Hst. unfold close_connection, bind, conn_at, ret. rewrite Hc.
  destruct (State_eqb (state conn) Connected) eqn:Heq; [|reflexivity].
  apply State_eqb_eq in Heq. contradiction.
Qed.

(** X8.  [close_connection] acts once.  On a Connected connection it appends
    one Close frame with an empty payload behind what is queued and sets the
    state to Closing; on a connection in any other state it does nothing.
    So a second call does nothing, and after the first call [queue_frame]
    refuses every frame. *)
Theorem X8_close_connection_once (s : WSServer) (id : N) (conn : Connection) :
  connections_ s !! id = Some conn ->
  (state conn <> Connected -> close_connection id s = Ok (tt, s))
  /\ (state conn = Connected ->
      exists s' conn',
        close_connection id s = Ok (tt, s')
        /\ connections_ s' = <[id := conn']> (connections_ s)
        /\ state conn' = Closing
        /\ send_buffer conn'
           = (send_buffer conn ++ [to_string empty_close_frame])%list
        /\ socket conn' = socket conn
        /\ upcalls s' = upcalls s
        /\ closed_connections_ s' = closed_connections_ s
        /\ close_connection id s' = Ok (tt, s')
        /\ (forall who frame, queue_frame who id frame s' = Ok (false, s'))).
Proof.
  intros Hc. split; [apply (close_connection_refused _ _ _ Hc)|].
  intros Hst. eexists _, _. split; [apply (close_connection_Connected _ _ _ Hc Hst)|].
  cbn [connections_ set_connections upcalls closed_connections_].
  split; [reflexivity|].
  cbn [set_state note_queued emplace_back set_send_buffer state send_buffer socket].
  repeat (split; [reflexivity|]). split.
  - eapply close_connection_refused.
    + cbn [connections_ set_connections]. apply lookup_insert_eq.
    + discriminate.
  - intros who frame. eapply queue_frame_refused.
    + cbn [connections_ set_connections]. apply lookup_insert_eq.
    + discriminate.
Qed.

(** X9.  After [clear_buffer], for either transport, [buffer_bytes] reports
    zero: the send buffer is empty and, on a secure transport, so is the
    session's buffer.  The state of the connection, what is already on the
    wire and the rest of the server are as before. *)
Theorem X9_clear_buffer_then_buffer_bytes (s : WSServer) (id : N) (conn : Connection) :
  connections_ s !! id = Some conn ->
  exists s' conn',
    clear_buffer T id s = Ok (tt, s')
    /\ connections_ s' = <[id := conn']> (connections_ s)
    /\ send_buffer conn' = []
    /\ state conn' = state conn
    /\ wire (socket conn') = wire (socket conn)
    /\ (T = NBSecureSocket -> data_to_send conn' = false)
    /\ upcalls s' = upcalls s
    /\ closed_connections_ s' = closed_connections_ s
    /\ buffer_bytes T id s' = Ok (0%N, s').
Proof.
  intros Hc. unfold clear_buffer, buffer_bytes.
  unfold bind at 1. unfold conn_at at 1. rewrite Hc.
  destruct T.
  - eexists _, _. split; [reflexivity|].
    cbn [connections_ set_connections upcalls closed_connections_].
    rewrite (alter_present _ _ _ _ Hc). split; [reflexivity|].
    cbn [set_send_buffer send_buffer state socket].
    repeat (split; [reflexivity|]). split; [discriminate|].
    repeat (split; [reflexivity|]).
    unfold bind, conn_at. cbn [connections_ set_connections].
    rewrite lookup_insert_eq. reflexivity.
  - eexists _, _. split; [reflexivity|].
    cbn [connections_ set_connections upcalls closed_connections_].
    rewrite alter_alter_eq, (alter_present _ _ _ _ Hc). split; [reflexivity|].
    unfold compose.
    cbn [set_send_buffer set_socket send_buffer state socket Socket_clear_buffer wire].
    repeat (split; [reflexivity|]).
    unfold bind, conn_at. cbn [connections_ set_connections].
    rewrite lookup_insert_eq. reflexivity.
Qed.

End MethodFacts.

(** ** The branches of the read action and the write action *)

Ltac exec_read tac H Hc :=
  unfold_server H; unfold WSMessageParser_parse, HTTPRequestParser_parse in H;
  cbn [mbind result_bind] in H;
  repeat (repeat (progress
                    (simp_server H Hc;
                     cbn [WSMessageParser_pop HTTPRequestParser_pop complete_messages
                          ws_pending complete_requests http_pending tail
                          mbind result_bind] in H;
                     tac));
          try discriminate H; try split_server H).

Ltac show_server :=
  cbn [connections_ closed_connections_ active_ upcalls last_connection_id_
       listener_addr_ set_connections set_closed_connections note_upcall
       set_active set_last_connection_id].

Ltac show_conn :=
  unfold compose;
  cbn [set_socket set_state set_ws_handshake_parser set_ws_message_parser
       set_send_buffer note_queued emplace_back
       socket state ws_handshake_parser ws_message_parser send_buffer queued
       WSMessageParser_pop HTTPRequestParser_pop complete_messages ws_pending
       complete_requests http_pending tail].

Ltac show_entry Hc :=
  show_server;
  rewrite ?alter_alter_eq, (alter_present _ _ _ _ Hc);
  unfold compose;
  cbn [set_socket set_state set_ws_handshake_parser set_ws_message_parser
       set_send_buffer note_queued emplace_back
       socket state ws_handshake_parser ws_message_parser send_buffer queued
       WSMessageParser_pop HTTPRequestParser_pop complete_messages ws_pending
       complete_requests http_pending tail].

Section BranchFacts.

Context {E : Collaborators}.

Variable T : SocketType.

(** X10.  When the read returns no data the connection is dropped, whatever
    its state (the assertion for Connecting and Closed is not reached): the
    state becomes Closed, [close_callback] is invoked once, the identifier
    enters the closed set, and the action asks for its cancellation.  The
    parsers and the send buffer are left as they are. *)
Theorem X10_read_end_of_stream (s : WSServer) (id : N) (conn : Connection)
        (sock : Socket) :
  connections_ s !! id = Some conn ->
  Socket_read (socket conn) = ("", sock) ->
  exists s',
    read_callback id s = Ok (CancelAll, s')
    /\ connections_ s' = <[id := set_state Closed (set_socket sock conn)]> (connections_ s)
    /\ closed_connections_ s' = {[id]} ∪ closed_connections_ s
    /\ upcalls s' = (upcalls s ++ [close_callback id])%list
    /\ active_ s' = active_ s.
Proof.
  intros Hc Hread.
  destruct (read_callback id s) as [[r s1]|e] eqn:H.
  - exec_read ltac:(try rewrite Hread in H; cbn [String.eqb] in H) H Hc.
    injection H as <- <-. eexists. split; [reflexivity|].
    show_entry Hc. repeat split.
  - exfalso. exec_read ltac:(try rewrite Hread in H; cbn [String.eqb] in H) H Hc.
Qed.

(** X11.  The handshake branch.  A NotConnected connection that reads data
    feeds it to the request parser; an exception of the parser leaves the
    callback.  With no complete request nothing else happens.  Otherwise the
    oldest request is dequeued and answered, and the serialised response is
    appended to the send buffer: a 101 response moves the connection to
    Connecting, without any callback; any other response drops the
    connection (Closed, [close_callback], closed set, cancellation) with the
    response still in the send buffer. *)
Theorem X11_read_not_connected (s : WSServer) (id : N) (conn : Connection)
        (data : string) (sock : Socket) :
  connections_ s !! id = Some conn ->
  state conn = NotConnected ->
  Socket_read (socket conn) = (data, sock) ->
  (data =? "") = false ->
  match http_decode (http_pending (ws_handshake_parser conn)) data with
  | Throw e => read_callback id s = Throw e
  | Ok (pending, done) =>
      exists r s' conn',
        read_callback id s = Ok (r, s')
        /\ connections_ s' = <[id := conn']> (connections_ s)
        /\ socket conn' = sock
        /\ http_pending (ws_handshake_parser conn') = pending
        /\ active_ s' = active_ s
        /\ match (complete_requests (ws_handshake_parser conn) ++ done)%list with
           | [] =>
               r = Continue
               /\ complete_requests (ws_handshake_parser conn') = []
               /\ state conn' = NotConnected
               /\ send_buffer conn' = send_buffer conn
               /\ upcalls s' = upcalls s
               /\ closed_connections_ s' = closed_connections_ s
           | request :: later =>
               exists response,
                 create_handshake_response equivalent_strings request = Ok response
                 /\ complete_requests (ws_handshake_parser conn') = later
                 /\ send_buffer conn' = (send_buffer conn ++ [str response])%list
                 /\ if status_code response =? "101" then
                      r = Continue
                      /\ state conn' = Connecting
                      /\ upcalls s' = upcalls s
                      /\ closed_connections_ s' = closed_connections_ s
                    else
                      r = CancelAll
                      /\ state conn' = Closed
                      /\ upcalls s' = (upcalls s ++ [close_callback id])%list
                      /\ closed_connections_ s' = {[id]} ∪ closed_connections_ s
           end
  end.
Proof.
  intros Hc Hst Hread Hdata.
  destruct (http_decode (http_pending (ws_handshake_parser conn)) data)
    as [[pending done]|e] eqn:Hdec.
  - destruct (complete_requests (ws_handshake_parser conn) ++ done)%list
      as [|request later] eqn:Hq.
    + destruct (read_callback id s) as [[r s1]|e] eqn:H.
      * exec_read ltac:(try rewrite Hread in H; try rewrite Hdata in H;
                        try rewrite Hst in H; try rewrite Hdec in H;
                        try rewrite Hq in H) H Hc.
        injection H as <- <-. eexists _, _, _. split; [reflexivity|].
        show_entry Hc. rewrite ?Hq. repeat split; try reflexivity. exact Hst.
      * exfalso.
        exec_read ltac:(try rewrite Hread in H; try rewrite Hdata in H;
                        try rewrite Hst in H; try rewrite Hdec in H;
                        try rewrite Hq in H) H Hc.
    + destruct (create_handshake_response_cases equivalent_strings request)
        as [[_ Hr] | [(_ & _ & Hr) | (_ & _ & k & _ & Hr)]].
      all: destruct (read_callback id s) as [[r s1]|e] eqn:H;
        [ exec_read ltac:(try rewrite Hread in H; try rewrite Hdata in H;
                          try rewrite Hst in H; try rewrite Hdec in H;
                          try rewrite Hq in H; try rewrite Hr in H) H Hc;
          injection H as <- <-; eexists _, _, _; (split; [reflexivity|]);
          show_entry Hc; rewrite ?Hq;
          repeat (split; [reflexivity|]);
          eexists; (split; [exact Hr|]);
          repeat (split; [reflexivity|]);
          rewrite ?status_code_error_403, ?status_code_upgrade in *;
          try match goal with
              | Hs : (status_code _ =? "101") = _ |- _ => try rewrite Hs
              end;
          repeat split; try reflexivity; try discriminate
        | exfalso;
          exec_read ltac:(try rewrite Hread in H; try rewrite Hdata in H;
                          try rewrite Hst in H; try rewrite Hdec in H;
                          try rewrite Hq in H; try rewrite Hr in H) H Hc ].
  - destruct (read_callback id s) as [[r s1]|e'] eqn:H.
    + exfalso.
      exec_read ltac:(try rewrite Hread in H; try rewrite Hdata in H;
                      try rewrite Hst in H; try rewrite Hdec in H) H Hc.
    + exec_read ltac:(try rewrite Hread in H; try rewrite Hdata in H;
                      try rewrite Hst in H; try rewrite Hdec in H) H Hc.
      now injection H as <-.
Qed.

(** X12.  A protocol violation on a Connected connection: the exception of
    the message parser is caught, [close_connection] queues a Close frame
    with an empty payload and sets the state to Closing, and the action goes
    on (Continue).  No message is handled in that dispatch, not even one the
    parser had completed before the violation: they stay in its queue. *)
Theorem X12_read_connected_violation (s : WSServer) (id : N) (conn : Connection)
        (data : string) (sock : Socket) (pending : ws_decoder)
        (done : list WSMessage.t) (e : exn) :
  connections_ s !! id = Some conn ->
  state conn = Connected ->
  Socket_read (socket conn) = (data, sock) ->
  (data =? "") = false ->
  ws_decode (ws_pending (ws_message_parser conn)) data = (pending, done, Some e) ->
  exists s' conn',
    read_callback id s = Ok (Continue, s')
    /\ connections_ s' = <[id := conn']> (connections_ s)
    /\ state conn' = Closing
    /\ send_buffer conn'
       = (send_buffer conn ++ [to_string empty_close_frame])%list
    /\ complete_messages (ws_message_parser conn')
       = (complete_messages (ws_message_parser conn) ++ done)%list
    /\ ws_pending (ws_message_parser conn') = pending
    /\ socket conn' = sock
    /\ upcalls s' = upcalls s
    /\ closed_connections_ s' = closed_connections_ s
    /\ active_ s' = active_ s.
Proof.
  intros Hc Hst Hread Hdata Hdec.
  destruct (read_callback id s) as [[r s1]|e'] eqn:H.
  - exec_read ltac:(try rewrite Hread in H; try rewrite Hdata in H;
                    try rewrite Hst in H; try rewrite Hdec in H) H Hc.
    injection H as <- <-. eexists _, _. split; [reflexivity|].
    show_entry Hc. repeat split.
  - exfalso.
    exec_read ltac:(try rewrite Hread in H; try rewrite Hdata in H;
                    try rewrite Hst in H; try rewrite Hdec in H) H Hc.
Qed.

(** X13.  The Closing branch.  A protocol violation is ignored.  Otherwise
    at most one message is dequeued: a Close message ends the connection
    (Closed, send buffer cleared, [close_callback], closed set,
    cancellation); a message of any other type is discarded.  No message is
    ever handed to [message_callback] and nothing is queued. *)
Theorem X13_read_closing (s : WSServer) (id : N) (conn : Connection)
        (data : string) (sock : Socket) (pending : ws_decoder)
        (done : list WSMessage.t) (thrown : option exn) :
  connections_ s !! id = Some conn ->
  state conn = Closing ->
  Socket_read (socket conn) = (data, sock) ->
  (data =? "") = false ->
  ws_decode (ws_pending (ws_message_parser conn)) data = (pending, done, thrown) ->
  exists r s' conn',
    read_callback id s = Ok (r, s')
    /\ connections_ s' = <[id := conn']> (connections_ s)
    /\ socket conn' = sock
    /\ ws_pending (ws_message_parser conn') = pending
    /\ active_ s' = active_ s
    /\ match thrown, (complete_messages (ws_message_parser conn) ++ done)%list with
       | None, message :: later =>
           complete_messages (ws_message_parser conn') = later
           /\ match WSMessage.type message with
              | WSMessage.Close =>
                  r = CancelAll
                  /\ state conn' = Closed
                  /\ send_buffer conn' = []
                  /\ upcalls s' = (upcalls s ++ [close_callback id])%list
                  /\ closed_connections_ s' = {[id]} ∪ closed_connections_ s
              | _ =>
                  r = Continue
                  /\ state conn' = Closing
                  /\ send_buffer conn' = send_buffer conn
                  /\ upcalls s' = upcalls s
                  /\ closed_connections_ s' = closed_connections_ s
              end
       | _, queue =>
           complete_messages (ws_message_parser conn') = queue
           /\ r = Continue
           /\ state conn' = Closing
           /\ send_buffer conn' = send_buffer conn
           /\ upcalls s' = upcalls s
           /\ closed_connections_ s' = closed_connections_ s
       end.
Proof.
  intros Hc Hst Hread Hdata Hdec.
  destruct (read_callback id s) as [[r s1]|e'] eqn:H.
  - exec_read ltac:(try rewrite Hread in H; try rewrite Hdata in H;
                    try rewrite Hst in H; try rewrite Hdec in H) H Hc.
    all: injection H as <- <-.
    all: eexists _, _, _; split; [reflexivity|].
    all: show_entry Hc.
    all: split; [reflexivity|].
    all: show_conn.
    all: repeat match goal with
                | H : WSMessage.type _ = _ |- _ => rewrite H
                end.
    all: rewrite ?Hst; repeat split; try reflexivity.
  - exfalso.
    exec_read ltac:(try rewrite Hread in H; try rewrite Hdata in H;
                    try rewrite Hst in H; try rewrite Hdec in H) H Hc.
Qed.


End BranchFacts.

(** ** One step at a time: states, callbacks and the closed set *)

Ltac outcome_leaf Hc :=
  repeat match goal with
         | Hs : State_eqb _ _ = true |- _ => apply State_eqb_eq in Hs
         end;
  cbn [state set_socket] in *;
  eexists _, _; split; [exact Hc|];
  split; [first [show_entry Hc; reflexivity | symmetry; apply insert_id; exact Hc]|];
  split; [reflexivity|];
  split; [show_server; first [reflexivity | symmetry; apply app_nil_r]|];
  show_server; show_conn;
  rewrite ?Connection_write_state;
  repeat match goal with
         | Hs : state _ = _ |- _ => rewrite Hs
         end;
  split;
  [ first [ reflexivity
          | match goal with |- context [state ?c] => destruct (state c); reflexivity end ]
  | first [ apply outcome_quiet; reflexivity
          | apply outcome_dropped; reflexivity
          | apply outcome_opened; reflexivity
          | apply outcome_delivered; first [reflexivity | now left | now right] ] ].

Section StepSummary.

Context {E : Collaborators}.

Variable T : SocketType.

Lemma permitted_refl (st : State) : permitted st st = true.
Proof. destruct st; reflexivity. Qed.

Lemma permitted_rank (from to : State) :
  permitted from to = true -> state_rank from <= state_rank to.
Proof. destruct from, to; cbn; intros H; try discriminate H; lia. Qed.

Lemma permitted_Closed (to : State) : permitted Closed to = true -> to = Closed.
Proof. destruct to; cbn; intros H; try discriminate H; reflexivity. Qed.

Lemma read_callback_works_on (id : N) (s s' : WSServer) (r : ResultType)
      (conn : Connection) :
  connections_ s !! id = Some conn ->
  read_callback id s = Ok (r, s') ->
  exists us, works_on id s s' us
             /\ (r = CancelAll /\ us = [close_callback id]
                 \/ r = Continue /\ us <> [close_callback id])
             /\ forall id', us <> [open_callback id'].
Proof.
  intros Hc H. exec_server H Hc.
  all: injection H as <- <-.
  all: eexists; split; [outcome_leaf Hc|].
  all: split; [|discriminate].
  all: first [ left; split; reflexivity | right; split; [reflexivity | discriminate] ].
Qed.

Lemma write_callback_works_on (id : N) (s s' : WSServer) (r : ResultType)
      (conn : Connection) :
  connections_ s !! id = Some conn ->
  write_callback T id s = Ok (r, s') ->
  exists us, works_on id s s' us
             /\ (r = CancelAll /\ us = [close_callback id]
                 \/ r = Continue /\ us <> [close_callback id])
             /\ forall id' message, us <> [message_callback id' message].
Proof.
  intros Hc H. exec_server H Hc.
  all: injection H as <- <-.
  all: try match goal with
           | Hx : State_eqb (state (set_state _ _)) _ && _ = true |- _ =>
               cbn [state set_state State_eqb andb] in Hx; discriminate Hx
           end.
  all: eexists; split; [outcome_leaf Hc|].
  all: split; [|discriminate].
  all: first [ left; split; reflexivity | right; split; [reflexivity | discriminate] ].
Qed.

Lemma queue_frame_works_on (who : Origin) (id : N) (frame : WSFrame.t)
      (s s' : WSServer) (b : bool) :
  queue_frame who id frame s = Ok (b, s') -> works_on id s s' [].
Proof.
  intros H. destruct (connections_ s !! id) as [c|] eqn:Hc.
  - exec_server H Hc. all: injection H as <- <-. all: outcome_leaf Hc.
  - unfold queue_frame in H. now rewrite (bind_Throw _ _ _ _ (conn_at_None _ _ Hc)) in H.
Qed.

Lemma close_connection_works_on (id : N) (s s' : WSServer) :
  close_connection id s = Ok (tt, s') -> works_on id s s' [].
Proof.
  intros H. destruct (connections_ s !! id) as [c|] eqn:Hc.
  - exec_server H Hc. all: injection H as <-. all: try discriminate.
    all: outcome_leaf Hc.
  - unfold close_connection in H.
    now rewrite (bind_Throw _ _ _ _ (conn_at_None _ _ Hc)) in H.
Qed.

Lemma clear_buffer_works_on (id : N) (s s' : WSServer) :
  clear_buffer T id s = Ok (tt, s') -> works_on id s s' [].
Proof.
  intros H. destruct (connections_ s !! id) as [c|] eqn:Hc.
  - exec_server H Hc. all: injection H as <-. all: outcome_leaf Hc.
  - unfold clear_buffer in H.
    now rewrite (bind_Throw _ _ _ _ (conn_at_None _ _ Hc)) in H.
Qed.

End StepSummary.

Section Invariants.

Context {E : Collaborators}.

Variable T : SocketType.

Lemma alter_absent (f : Connection -> Connection) (id : N)
      (table : gmap N Connection) :
  table !! id = None -> alter f id table = table.
Proof.
  intros H. apply map_eq. intros j.
  destruct (decide (id = j)) as [->|Hne].
  - now rewrite lookup_alter_eq, H.
  - now rewrite lookup_alter_ne.
Qed.

Lemma accept_callback_table (client : Socket) (s : WSServer) :
  exists r s',
    accept_callback client s = Ok (r, s')
    /\ connections_ s'
       = match connections_ s !! last_connection_id_ s with
         | Some _ => connections_ s
         | None => <[last_connection_id_ s := new_connection client]> (connections_ s)
         end
    /\ last_connection_id_ s' = ((last_connection_id_ s + 1) mod 2 ^ 64)%N
    /\ closed_connections_ s' = closed_connections_ s
    /\ upcalls s' = upcalls s.
Proof.
  unfold accept_callback, emplace, conn_at, modify, get, ret, bind.
  cbn [connections_ set_last_connection_id last_connection_id_].
  destruct (connections_ s !! last_connection_id_ s) as [c|] eqn:Hc.
  - cbn [connections_ set_last_connection_id]. rewrite Hc.
    cbn [connections_ set_last_connection_id].
    destruct (MAX_CONNECTION_NUM <=? size (connections_ s))%nat;
      eexists _, _; repeat split.
  - cbn [connections_ set_last_connection_id set_connections].
    rewrite lookup_insert_eq.
    cbn [connections_ set_last_connection_id set_connections].
    destruct (MAX_CONNECTION_NUM <=? size (<[_ := _]> (connections_ s)))%nat;
      eexists _, _; repeat split.
Qed.

(** What one dispatched event does: nothing to the connections, or one new
    connection, or one step on one connection. *)
Lemma dispatch_summary (ev : Event) (s s' : WSServer) :
  dispatch T ev s = Ok (tt, s') ->
  (connections_ s' = connections_ s
   /\ closed_connections_ s' = closed_connections_ s /\ upcalls s' = upcalls s)
  \/ (exists client,
         ev = listener_ready client /\ active_ s = true
         /\ connections_ s !! last_connection_id_ s = None
         /\ connections_ s'
            = <[last_connection_id_ s := new_connection client]> (connections_ s)
         /\ closed_connections_ s' = closed_connections_ s
         /\ upcalls s' = upcalls s)
  \/ (exists id us,
         works_on id s s' us
         /\ (us = []
             \/ (ev = read_ready id /\ forall id', us <> [open_callback id'])
             \/ (ev = write_ready id
                 /\ forall id' message, us <> [message_callback id' message]))).
Proof.
  intros H.
  destruct ev as [client|id|id|id|id frame|id|id]; cbn [dispatch] in H.
  - unfold bind at 1, get in H. destruct (active_ s) eqn:Hact.
    + unfold bind at 1, ret in H.
      destruct (accept_callback_table client s) as (r & s1 & Hacc & Hc & _ & Hcl & Hup).
      rewrite Hacc in H. injection H as <-.
      destruct (connections_ s !! last_connection_id_ s) eqn:Hl.
      * left. auto.
      * right. left. exists client. repeat split; assumption.
    + injection H as <-. left. auto.
  - unfold when_registered, bind at 1, get in H.
    destruct (connections_ s !! id) as [c|] eqn:Hc.
    + unfold bind at 1, ret in H.
      destruct (read_callback id s) as [[r s1]|] eqn:Hcb; [|discriminate].
      injection H as <-.
      destruct (read_callback_works_on _ _ _ _ _ Hc Hcb) as (us & Hw & _ & Hno).
      right. right. exists id, us. split; [exact Hw|]. right. left. auto.
    + injection H as <-. left. auto.
  - unfold when_registered, bind at 1, get in H.
    destruct (connections_ s !! id) as [c|] eqn:Hc.
    + unfold bind at 1, ret in H.
      destruct (write_callback T id s) as [[r s1]|] eqn:Hcb; [|discriminate].
      injection H as <-.
      destruct (write_callback_works_on T _ _ _ _ _ Hc Hcb) as (us & Hw & _ & Hno).
      right. right. exists id, us. split; [exact Hw|]. right. right. auto.
    + injection H as <-. left. auto.
  - destruct T.
    + injection H as <-. left. auto.
    + injection H as <-.
      destruct (connections_ s !! id) as [c|] eqn:Hc.
      * right. right. exists id, []. split; [|now left]. outcome_leaf Hc.
      * left. cbn [connections_ closed_connections_ upcalls set_connections].
        rewrite (alter_absent _ _ _ Hc). auto.
  - unfold bind at 1, ret in H.
    destruct (queue_frame by_application id frame s) as [[b s1]|] eqn:Hq; [|discriminate].
    injection H as <-. right. right. exists id, []. split; [|now left].
    exact (queue_frame_works_on _ _ _ _ _ _ Hq).
  - right. right. exists id, []. split; [|now left].
    exact (close_connection_works_on _ _ _ H).
  - right. right. exists id, []. split; [|now left].
    exact (clear_buffer_works_on T _ _ _ H).
Qed.

Lemma dispatch_forward (ev : Event) (s s' : WSServer) (id : N) (conn : Connection) :
  dispatch T ev s = Ok (tt, s') ->
  connections_ s !! id = Some conn ->
  exists conn',
    connections_ s' !! id = Some conn'
    /\ permitted (state conn) (state conn') = true.
Proof.
  intros H Hc.
  destruct (dispatch_summary _ _ _ H)
    as [(Ht & _) | [(client & _ & _ & Hfree & Ht & _) | (id0 & us & Hw & _)]].
  - exists conn. rewrite Ht. split; [exact Hc | apply permitted_refl].
  - exists conn. rewrite Ht. split; [|apply permitted_refl].
    rewrite lookup_insert_ne; [exact Hc|]. intros Heq. rewrite Heq in Hfree.
    rewrite Hfree in Hc. discriminate Hc.
  - destruct Hw as (c0 & c0' & Hc0 & Ht & _ & _ & Hp & _). rewrite Ht.
    destruct (decide (id0 = id)) as [->|Hne].
    + exists c0'. rewrite lookup_insert_eq. split; [reflexivity|].
      rewrite Hc in Hc0. injection Hc0 as <-. exact Hp.
    + exists conn. rewrite lookup_insert_ne by exact Hne.
      split; [exact Hc | apply permitted_refl].
Qed.

Lemma dispatch_upcalls (ev : Event) (s s' : WSServer) :
  dispatch T ev s = Ok (tt, s') ->
  exists us,
    upcalls s' = (upcalls s ++ us)%list
    /\ forall id,
         id ∈ closed_connections_ s'
         <-> id ∈ closed_connections_ s \/ In (close_callback id) us.
Proof.
  intros H.
  destruct (dispatch_summary _ _ _ H)
    as [(_ & Hcl & Hup) | [(client & _ & _ & _ & _ & Hcl & Hup) | (id0 & us & Hw & _)]].
  - exists []. rewrite Hcl, Hup, app_nil_r. split; [reflexivity|].
    intros id. cbn [In]. tauto.
  - exists []. rewrite Hcl, Hup, app_nil_r. split; [reflexivity|].
    intros id. cbn [In]. tauto.
  - destruct Hw as (c0 & c0' & _ & _ & _ & Hup & _ & Hout). exists us.
    split; [exact Hup|]. intros id.
    destruct Hout as [-> | -> _ | message -> _ _ _ | -> _ _]; cbn [In].
    + tauto.
    + rewrite elem_of_union, elem_of_singleton. split.
      * intros [->|Hin]; [right; left; reflexivity | left; exact Hin].
      * intros [Hin|[Heq|[]]]; [right; exact Hin | left; congruence].
    + split; [tauto | intros [Hin|[Heq|[]]]; [exact Hin | discriminate Heq]].
    + split; [tauto | intros [Hin|[Heq|[]]]; [exact Hin | discriminate Heq]].
Qed.

Lemma poll_forward (ready : list Event) (s s' : WSServer) :
  poll T ready s = Ok (tt, s') ->
  exists us,
    upcalls s' = (upcalls s ++ us)%list
    /\ (forall id,
          id ∈ closed_connections_ s'
          <-> id ∈ closed_connections_ s \/ In (close_callback id) us)
    /\ forall id conn,
         connections_ s !! id = Some conn ->
         exists conn',
           connections_ s' !! id = Some conn'
           /\ state_rank (state conn) <= state_rank (state conn').
Proof.
  revert s. induction ready as [|ev later IH]; intros s H.
  - injection H as <-. exists []. rewrite app_nil_r. split; [reflexivity|]. split.
    + intros id. cbn [In]. tauto.
    + intros id conn Hc. exists conn. split; [exact Hc | lia].
  - cbn [poll] in H. unfold bind at 1 in H.
    destruct (dispatch T ev s) as [[[] s1]|] eqn:Hd; [|discriminate].
    destruct (dispatch_upcalls _ _ _ Hd) as (us1 & Hup1 & Hcl1).
    destruct (IH _ H) as (us2 & Hup2 & Hcl2 & Hf2).
    exists (us1 ++ us2)%list. split; [|split].
    + rewrite Hup2, Hup1. symmetry. apply app_assoc.
    + intros id. rewrite Hcl2, Hcl1, in_app_iff. tauto.
    + intros id conn Hc.
      destruct (dispatch_forward _ _ _ _ _ Hd Hc) as (c1 & Hc1 & Hp).
      destruct (Hf2 _ _ Hc1) as (c2 & Hc2 & Hr).
      exists c2. split; [exact Hc2|].
      apply permitted_rank in Hp. lia.
Qed.

Lemma reachable_closed_empty (s : WSServer) :
  reachable T s -> closed_connections_ s = ∅.
Proof.
  destruct 1 as [addr | s ready s' _ Hloop]; [reflexivity|].
  unfold loop_once in Hloop. unfold bind at 1 in Hloop.
  destruct (poll T ready s) as [[[] s1]|]; [|discriminate].
  unfold bind at 1 in Hloop.
  destruct (collect s1) as [[[] s2]|] eqn:Hcol; [|discriminate].
  destruct (collect_effect _ _ Hcol) as (_ & Hcl & _).
  unfold bind at 1, get in Hloop.
  destruct (negb (active_ s2) && _); injection Hloop as <-; exact Hcl.
Qed.

(** X15.  One dispatched event removes no connection and moves each one
    along an edge of the state machine at most: NotConnected to Connecting,
    Connecting to Connected, Connected to Closing, and any state to Closed;
    a Closed connection stays Closed.  A connection that is new in the table
    was accepted by that event and is NotConnected. *)
Theorem X15_dispatch_follows_the_state_machine (ev : Event) (s s' : WSServer) :
  dispatch T ev s = Ok (tt, s') ->
  (forall id conn,
      connections_ s !! id = Some conn ->
      exists conn',
        connections_ s' !! id = Some conn'
        /\ permitted (state conn) (state conn') = true
        /\ (state conn = Closed -> state conn' = Closed))
  /\ (forall id conn',
        connections_ s' !! id = Some conn' ->
        connections_ s !! id = None ->
        exists client,
          ev = listener_ready client
          /\ id = last_connection_id_ s
          /\ conn' = new_connection client
          /\ state conn' = NotConnected).
Proof.
  intros H. split.
  - intros id conn Hc.
    destruct (dispatch_forward _ _ _ _ _ H Hc) as (conn' & Hc' & Hp).
    exists conn'. split; [exact Hc'|]. split; [exact Hp|].
    intros Hst. rewrite Hst in Hp. exact (permitted_Closed _ Hp).
  - intros id conn' Hc' Hnone.
    destruct (dispatch_summary _ _ _ H)
      as [(Ht & _) | [(client & Hev & _ & _ & Ht & _) | (id0 & us & Hw & _)]].
    + rewrite Ht, Hnone in Hc'. discriminate Hc'.
    + rewrite Ht in Hc'. destruct (decide (last_connection_id_ s = id)) as [Heq|Hne].
      * rewrite Heq, lookup_insert_eq in Hc'. injection Hc' as <-.
        exists client. repeat split; [exact Hev | symmetry; exact Heq].
      * rewrite lookup_insert_ne, Hnone in Hc' by exact Hne. discriminate Hc'.
    + destruct Hw as (c0 & c0' & Hc0 & Ht & _). rewrite Ht in Hc'.
      destruct (decide (id0 = id)) as [Heq|Hne].
      * rewrite Heq, Hnone in Hc0. discriminate Hc0.
      * rewrite lookup_insert_ne, Hnone in Hc' by exact Hne. discriminate Hc'.
Qed.

(** X16.  Between any two callbacks of a run, every identifier in the closed
    set names a connection that is still in the table, is Closed, and has
    had its [close_callback] invoked.  (The converse fails: a connection
    that echoed a client's Close is Closed without being in the set.) *)
Theorem X16_closed_set_names_closed_connections (s : WSServer) (id : N) :
  reachable_in_poll T s ->
  id ∈ closed_connections_ s ->
  exists conn,
    connections_ s !! id = Some conn
    /\ state conn = Closed
    /\ In (close_callback id) (upcalls s).
Proof.
  intros Hr. revert id. induction Hr as [s Hr | s ev s' _ IH Hd]; intros id Hin.
  - rewrite (reachable_closed_empty _ Hr) in Hin. now apply not_elem_of_empty in Hin.
  - destruct (dispatch_summary _ _ _ Hd)
      as [(Ht & Hcl & Hup) | [(client & _ & _ & Hfree & Ht & Hcl & Hup)
                             | (id0 & us & Hw & _)]].
    + rewrite Ht, Hup. rewrite Hcl in Hin. exact (IH _ Hin).
    + rewrite Hcl in Hin. destruct (IH _ Hin) as (conn & Hc & Hst & Hcb).
      exists conn. rewrite Ht, Hup. split; [|split; assumption].
      rewrite lookup_insert_ne; [exact Hc|]. intros Heq. rewrite Heq in Hfree.
      rewrite Hfree in Hc. discriminate Hc.
    + destruct Hw as (c0 & c0' & Hc0 & Ht & _ & Hup & Hp & Hout).
      rewrite Ht, Hup.
      assert (Hold : id ∈ closed_connections_ s ->
                     exists conn, <[id0 := c0']> (connections_ s) !! id = Some conn
                                  /\ state conn = Closed
                                  /\ In (close_callback id) (upcalls s ++ us)).
      { intros Hin0. destruct (IH _ Hin0) as (conn & Hc & Hst & Hcb).
        destruct (decide (id0 = id)) as [Heq|Hne].
        - exists c0'. rewrite Heq, lookup_insert_eq. split; [reflexivity|].
          rewrite Heq, Hc in Hc0. injection Hc0 as <-. rewrite Hst in Hp.
          split; [exact (permitted_Closed _ Hp) | apply in_or_app; now left].
        - exists conn. rewrite lookup_insert_ne by exact Hne.
          split; [exact Hc|]. split; [exact Hst | apply in_or_app; now left]. }
      destruct Hout as [Hcl | Hcl Hst | message Hcl _ _ _ | Hcl _ _];
        rewrite Hcl in Hin; try exact (Hold Hin).
      apply elem_of_union in Hin as [Hin|Hin]; [|exact (Hold Hin)].
      apply elem_of_singleton in Hin. subst id.
      exists c0'. rewrite lookup_insert_eq. split; [reflexivity|].
      split; [exact Hst | apply in_or_app; right; now left].
Qed.

(** X17.  One dispatched event makes at most one callback into the
    application.  [open_callback] comes only from the write action, on a
    connection it moves from Connecting to Connected; [message_callback]
    only from the read action, on a connection that is and stays Connected,
    with a Text or Binary message; [close_callback] only from the read or
    the write action, on a connection it leaves Closed and in the closed
    set.  The listener and the application's own calls make none. *)
Theorem X17_callbacks_of_one_dispatch (ev : Event) (s s' : WSServer) :
  dispatch T ev s = Ok (tt, s') ->
  exists us,
    upcalls s' = (upcalls s ++ us)%list
    /\ length us <= 1
    /\ forall u,
         In u us ->
         exists id conn conn',
           connections_ s !! id = Some conn
           /\ connections_ s' !! id = Some conn'
           /\ match u with
              | open_callback id' =>
                  id' = id /\ ev = write_ready id
                  /\ state conn = Connecting /\ state conn' = Connected
              | message_callback id' message =>
                  id' = id /\ ev = read_ready id
                  /\ state conn = Connected /\ state conn' = Connected
                  /\ (WSMessage.type message = WSMessage.Text
                      \/ WSMessage.type message = WSMessage.Binary)
              | close_callback id' =>
                  id' = id /\ (ev = read_ready id \/ ev = write_ready id)
                  /\ state conn' = Closed /\ id ∈ closed_connections_ s'
              end.
Proof.
  intros H.
  destruct (dispatch_summary _ _ _ H)
    as [(_ & _ & Hup) | [(client & _ & _ & _ & _ & _ & Hup) | (id & us & Hw & Hev)]].
  - exists []. rewrite Hup, app_nil_r. split; [reflexivity|].
    split; [cbn; lia | intros u []].
  - exists []. rewrite Hup, app_nil_r. split; [reflexivity|].
    split; [cbn; lia | intros u []].
  - destruct Hw as (conn & conn' & Hc & Ht & _ & Hup & _ & Hout). exists us.
    split; [exact Hup|].
    assert (Hc' : connections_ s' !! id = Some conn')
      by (rewrite Ht; apply lookup_insert_eq).
    destruct Hout as [Hcl | Hcl Hst | message Hcl Hb Ha Hty | Hcl Hb Ha].
    + split; [cbn; lia | intros u []].
    + split; [cbn; lia|]. intros u [<-|[]]. exists id, conn, conn'.
      split; [exact Hc|]. split; [exact Hc'|]. split; [reflexivity|].
      split; [|split; [exact Hst | rewrite Hcl; apply elem_of_union; left; now apply elem_of_singleton]].
      destruct Hev as [Hnil | [[Hev _] | [Hev _]]]; [discriminate Hnil | auto | auto].
    + split; [cbn; lia|]. intros u [<-|[]]. exists id, conn, conn'.
      split; [exact Hc|]. split; [exact Hc'|]. split; [reflexivity|].
      split; [|auto].
      destruct Hev as [Hnil | [[Hev _] | [_ Hno]]];
        [discriminate Hnil | exact Hev | now destruct (Hno id message)].
    + split; [cbn; lia|]. intros u [<-|[]]. exists id, conn, conn'.
      split; [exact Hc|]. split; [exact Hc'|]. split; [reflexivity|].
      split; [|auto].
      destruct Hev as [Hnil | [[_ Hno] | [Hev _]]];
        [discriminate Hnil | now destruct (Hno id) | exact Hev].
Qed.

Lemma dispatch_cap (ev : Event) (s s' : WSServer) :
  dispatch T ev s = Ok (tt, s') ->
  listener_ok s ->
  size (connections_ s) <= MAX_CONNECTION_NUM ->
  size (connections_ s') <= MAX_CONNECTION_NUM.
Proof.
  intros H Hl Hsz.
  destruct (dispatch_summary _ _ _ H)
    as [(Ht & _) | [(client & _ & Hact & Hfree & Ht & _) | (id & us & Hw & _)]].
  - now rewrite Ht.
  - rewrite Ht, map_size_insert_None by exact Hfree. specialize (Hl Hact). lia.
  - destruct Hw as (conn & conn' & Hc & Ht & _).
    rewrite Ht, map_size_insert_Some by (rewrite Hc; eauto). exact Hsz.
Qed.

Lemma poll_cap (ready : list Event) (s s' : WSServer) :
  poll T ready s = Ok (tt, s') ->
  listener_ok s -> table_ok s ->
  size (connections_ s) <= MAX_CONNECTION_NUM ->
  size (connections_ s') <= MAX_CONNECTION_NUM.
Proof.
  revert s. induction ready as [|ev later IH]; intros s H Hl Ht Hsz.
  - injection H as <-. exact Hsz.
  - cbn [poll] in H. unfold bind at 1 in H.
    destruct (dispatch T ev s) as [[[] s1]|] eqn:Hd; [|discriminate].
    destruct (dispatch_ok T _ _ _ Hd Hl Ht) as [Hl1 Ht1].
    exact (IH _ H Hl1 Ht1 (dispatch_cap _ _ _ Hd Hl Hsz)).
Qed.

Lemma reachable_cap (s : WSServer) :
  reachable T s -> size (connections_ s) <= MAX_CONNECTION_NUM.
Proof.
  induction 1 as [addr | s ready s' Hr IH Hloop].
  - cbn. rewrite map_size_empty. lia.
  - destruct (reachable_ok T _ Hr) as [[Hl _] Ht].
    unfold loop_once in Hloop. unfold bind at 1 in Hloop.
    destruct (poll T ready s) as [[[] s1]|] eqn:Hp; [|discriminate].
    pose proof (poll_cap _ _ _ Hp Hl Ht IH) as Hsz1.
    unfold bind at 1 in Hloop.
    destruct (collect s1) as [[[] s2]|] eqn:Hcol; [|discriminate].
    destruct (collect_effect _ _ Hcol) as (Hc2 & _).
    assert (Hsz2 : size (connections_ s2) <= MAX_CONNECTION_NUM).
    { rewrite Hc2. eapply Nat.le_trans; [|exact Hsz1].
      apply map_subseteq_size, erase_all_subseteq. }
    unfold bind at 1, get in Hloop.
    destruct (negb (active_ s2) && _); injection Hloop as <-; exact Hsz2.
Qed.

(** X18.  The table never holds more than [MAX_CONNECTION_NUM] connections:
    not after an iteration of the loop and not between two callbacks of an
    iteration, whatever the clients and the application do. *)
Theorem X18_table_within_the_cap (s : WSServer) :
  reachable_in_poll T s -> size (connections_ s) <= MAX_CONNECTION_NUM.
Proof.
  induction 1 as [s Hr | s ev s' Hr IH Hd].
  - exact (reachable_cap _ Hr).
  - destruct (reachable_in_poll_ok T _ Hr) as [Hl _].
    exact (dispatch_cap _ _ _ Hd Hl IH).
Qed.

(** X19.  The two phases of a drop.  An iteration of the loop erases from
    the table exactly the connections whose [close_callback] was invoked in
    it, and ends with an empty closed set.  Every other connection is still
    in the table afterwards, in the same state or one further along; so a
    connection that is merely Closed (after echoing a Close) stays until a
    later callback drops it. *)
Theorem X19_iteration_erases_the_dropped (ready : list Event) (s s' : WSServer) :
  reachable T s ->
  loop_once T ready s = Ok (tt, s') ->
  exists us,
    upcalls s' = (upcalls s ++ us)%list
    /\ closed_connections_ s' = ∅
    /\ (forall id, In (close_callback id) us -> connections_ s' !! id = None)
    /\ (forall id conn,
          connections_ s !! id = Some conn ->
          ~ In (close_callback id) us ->
          exists conn',
            connections_ s' !! id = Some conn'
            /\ state_rank (state conn) <= state_rank (state conn')).
Proof.
  intros Hr Hloop. pose proof (reachable_closed_empty _ Hr) as Hempty.
  unfold loop_once in Hloop. unfold bind at 1 in Hloop.
  destruct (poll T ready s) as [[[] s1]|] eqn:Hp; [|discriminate].
  destruct (poll_forward _ _ _ Hp) as (us & Hup & Hcl & Hfw).
  unfold bind at 1 in Hloop.
  destruct (collect s1) as [[[] s2]|] eqn:Hcol; [|discriminate].
  destruct (collect_effect _ _ Hcol) as (Hc2 & Hcl2 & _ & Hup2).
  assert (Hs' : connections_ s' = connections_ s2
                /\ closed_connections_ s' = closed_connections_ s2
                /\ upcalls s' = upcalls s2).
  { unfold bind at 1, get in Hloop.
    destruct (negb (active_ s2) && _); injection Hloop as <-; auto. }
  destruct Hs' as (-> & -> & ->). exists us.
  split; [now rewrite Hup2|]. split; [exact Hcl2|]. rewrite Hc2. split.
  - intros id Hin. rewrite erase_all_lookup.
    destruct (decide (id ∈ elements (closed_connections_ s1))) as [_|Hnin];
      [reflexivity|].
    exfalso. apply Hnin. apply elem_of_elements, Hcl. now right.
  - intros id conn Hc Hnin. rewrite erase_all_lookup.
    destruct (decide (id ∈ elements (closed_connections_ s1))) as [Hin|_].
    + exfalso. apply elem_of_elements, Hcl in Hin. rewrite Hempty in Hin.
      destruct Hin as [Hin|Hin]; [now apply not_elem_of_empty in Hin | auto].
    + exact (Hfw _ _ Hc).
Qed.


End Invariants.

Section Assertion.

Context {E : Collaborators}.

Lemma create_handshake_response_returns eqs (request : HTTPRequest) :
  exists response, create_handshake_response eqs request = Ok response.
Proof.
  destruct (create_handshake_response_cases eqs request)
    as [[_ Hr] | [(_ & _ & Hr) | (_ & _ & k & _ & Hr)]]; eauto.
Qed.

(** X21.  The assertion of the read action.  With data read, a read action
    that runs while its own predicate is false (the connection is Connecting
    or Closed) fails the assertion.  While the predicate holds it does not:
    the callback returns, except that on a NotConnected connection an
    exception of the request parser leaves it; exceptions of the message
    parser never do. *)
Theorem X21_read_against_its_predicate (s : WSServer) (id : N) (conn : Connection)
        (data : string) (sock : Socket) :
  connections_ s !! id = Some conn ->
  Socket_read (socket conn) = (data, sock) ->
  (data =? "") = false ->
  (read_predicate conn = false -> read_callback id s = Throw assertion_failure)
  /\ (read_predicate conn = true ->
      (exists r s', read_callback id s = Ok (r, s'))
      \/ (state conn = NotConnected
          /\ exists e,
               http_decode (http_pending (ws_handshake_parser conn)) data = Throw e
               /\ read_callback id s = Throw e)).
Proof.
  intros Hc Hread Hdata. unfold read_predicate.
  destruct (read_callback id s) as [[r s1]|e] eqn:H.
  - split; [|intros _; left; eauto].
    intros Hp. exfalso.
    destruct (state conn) eqn:Hst; cbn [State_eqb negb andb] in Hp; try discriminate Hp.
    all: exec_server_with ltac:(try rewrite Hread in H; try rewrite Hdata in H;
                                try rewrite Hst in H) H Hc.
  - destruct (state conn) eqn:Hst; cbn [State_eqb negb andb].
    all: split; intros Hp; try discriminate Hp.
    all: exec_server_with ltac:(try rewrite Hread in H; try rewrite Hdata in H;
                                try rewrite Hst in H) H Hc.
    all: try match goal with
             | Hx : create_handshake_response ?q ?h = Throw _ |- _ =>
                 destruct (create_handshake_response_returns q h) as [x Hy];
                 rewrite Hy in Hx; discriminate Hx
             end.
    all: try (injection H as <-; reflexivity).
    injection H as <-. right. split; [reflexivity|]. exists e0. split; [|reflexivity].
    unfold HTTPRequestParser_parse in Heqr.
    destruct (http_decode (http_pending (ws_handshake_parser conn)) data)
      as [[pending done]|e1]; cbn [mbind result_bind] in Heqr;
      [discriminate Heqr | now injection Heqr as <-].
Qed.

End Assertion.

(** ** Concrete runs of the properties above *)

Lemma after_dispatch (ev : Event) (s : WSServer) :
  Example.returns (dispatch TCPSocket ev s) = true ->
  dispatch TCPSocket ev s = Ok (tt, Scenario.after [ev] s).
Proof.
  unfold Scenario.after. cbn [poll]. unfold bind, ret.
  destruct (dispatch TCPSocket ev s) as [[[] s1]|]; [reflexivity | discriminate].
Qed.

Lemma after_loop_once (ready : list Event) (s : WSServer) :
  Example.returns (loop_once TCPSocket ready s) = true ->
  loop_once TCPSocket ready s = Ok (tt, Scenario.after_iteration ready s).
Proof.
  unfold Scenario.after_iteration.
  destruct (loop_once TCPSocket ready s) as [[[] s1]|]; [reflexivity | discriminate].
Qed.

Lemma Socket_read_end (sock : Socket) :
  incoming sock = [] -> Socket_read sock = ("", sock).
Proof. unfold Socket_read. now intros ->. Qed.

Lemma triple_eta {A B C : Type} (x : A * B * C) :
  x = (fst (fst x), snd (fst x), snd x).
Proof. now destruct x as [[a b] c]. Qed.

Lemma X7_witness :
  exists s' conn',
    poll TCPSocket
         (List.map (call_queue_frame 0%N) [Example.text_frame "a"; Example.text_frame "b"])
         Scenario.connected
    = Ok (tt, s')
    /\ connections_ s' !! 0%N = Some conn'
    /\ send_buffer conn'
       = (send_buffer (Scenario.connection 0%N Scenario.connected)
          ++ List.map to_string [Example.text_frame "a"; Example.text_frame "b"])%list.
Proof.
  destruct (proj1 (X7_queue_frame_keeps_call_order
                     (E := Reference.collaborators) TCPSocket
                     [Example.text_frame "a"; Example.text_frame "b"]
                     Scenario.connected 0%N
                     (Scenario.connection 0%N Scenario.connected)
                     (connection_lookup 0%N Scenario.connected
                        ltac:(vm_compute; reflexivity))))
    as (s' & conn' & Hp & Hc & Hb & _).
  - vm_compute. reflexivity.
  - exists s', conn'. repeat split; assumption.
Defined.

Lemma X8_witness :
  exists s' conn',
    close_connection 0%N Scenario.connected = Ok (tt, s')
    /\ connections_ s' = <[0%N := conn']> (connections_ Scenario.connected)
    /\ state conn' = Closing
    /\ close_connection 0%N s' = Ok (tt, s').
Proof.
  destruct (proj2 (X8_close_connection_once
                     (E := Reference.collaborators)
                     Scenario.connected 0%N
                     (Scenario.connection 0%N Scenario.connected)
                     (connection_lookup 0%N Scenario.connected
                        ltac:(vm_compute; reflexivity))))
    as (s' & conn' & H1 & H2 & H3 & _ & _ & _ & _ & H4 & _).
  - vm_compute. reflexivity.
  - exists s', conn'. repeat split; assumption.
Defined.

Lemma X9_witness :
  exists s',
    clear_buffer TCPSocket 0%N Example.connecting = Ok (tt, s')
    /\ buffer_bytes TCPSocket 0%N s' = Ok (0%N, s').
Proof.
  destruct (X9_clear_buffer_then_buffer_bytes
              (E := Reference.collaborators) TCPSocket
              Example.connecting 0%N
              (Scenario.connection 0%N Example.connecting)
              (connection_lookup 0%N Example.connecting
                 ltac:(vm_compute; reflexivity)))
    as (s' & conn' & H1 & _ & _ & _ & _ & _ & _ & _ & H2).
  exists s'. split; assumption.
Defined.

Lemma X10_witness :
  exists s',
    read_callback 0%N Scenario.connected = Ok (CancelAll, s')
    /\ upcalls s' = (upcalls Scenario.connected ++ [close_callback 0%N])%list.
Proof.
  destruct (X10_read_end_of_stream
              (E := Reference.collaborators)
              Scenario.connected 0%N
              (Scenario.connection 0%N Scenario.connected)
              (socket (Scenario.connection 0%N Scenario.connected))
              (connection_lookup 0%N Scenario.connected
                 ltac:(vm_compute; reflexivity))
              (Socket_read_end (socket (Scenario.connection 0%N Scenario.connected))
                 ltac:(vm_compute; reflexivity)))
    as (s' & H1 & _ & _ & H2 & _).
  exists s'. split; assumption.
Defined.

Lemma X11_witness :
  exists r s', read_callback 0%N Example.accepted = Ok (r, s').
Proof.
  pose proof (X11_read_not_connected
                (E := Reference.collaborators)
                Example.accepted 0%N
                (Scenario.connection 0%N Example.accepted)
                (fst (Socket_read (socket (Scenario.connection 0%N Example.accepted))))
                (snd (Socket_read (socket (Scenario.connection 0%N Example.accepted))))
                (connection_lookup 0%N Example.accepted
                   ltac:(vm_compute; reflexivity))
                ltac:(vm_compute; reflexivity)
                (surjective_pairing _)
                ltac:(vm_compute; reflexivity)) as H.
  destruct (http_decode _ _) as [[pending done]|e] eqn:Hd.
  - destruct H as (r & s' & conn' & Hr & _). exists r, s'. exact Hr.
  - vm_compute in Hd. discriminate Hd.
Defined.

Lemma X12_witness :
  exists s' conn',
    read_callback 0%N Example.violation_pending = Ok (Continue, s')
    /\ connections_ s' = <[0%N := conn']> (connections_ Example.violation_pending)
    /\ state conn' = Closing.
Proof.
  destruct (X12_read_connected_violation
              (E := Reference.collaborators)
              Example.violation_pending 0%N
              (Scenario.connection 0%N Example.violation_pending)
              (fst (Socket_read
                      (socket (Scenario.connection 0%N Example.violation_pending))))
              (snd (Socket_read
                      (socket (Scenario.connection 0%N Example.violation_pending))))
              "garbage" [] (runtime_error "unsupported or unmasked frame")
              (connection_lookup 0%N Example.violation_pending
                 ltac:(vm_compute; reflexivity))
              ltac:(vm_compute; reflexivity)
              (surjective_pairing _)
              ltac:(vm_compute; reflexivity)
              ltac:(vm_compute; reflexivity))
    as (s' & conn' & H1 & H2 & H3 & _).
  exists s', conn'. repeat split; assumption.
Defined.

Lemma X13_witness :
  exists r s' conn',
    read_callback 0%N Example.closing = Ok (r, s')
    /\ connections_ s' = <[0%N := conn']> (connections_ Example.closing).
Proof.
  destruct (X13_read_closing
              (E := Reference.collaborators)
              Example.closing 0%N
              (Scenario.connection 0%N Example.closing)
              (fst (Socket_read (socket (Scenario.connection 0%N Example.closing))))
              (snd (Socket_read (socket (Scenario.connection 0%N Example.closing))))
              _ _ _
              (connection_lookup 0%N Example.closing ltac:(vm_compute; reflexivity))
              ltac:(vm_compute; reflexivity)
              (surjective_pairing _)
              ltac:(vm_compute; reflexivity)
              (triple_eta _))
    as (r & s' & conn' & H1 & H2 & _).
  exists r, s', conn'. split; assumption.
Defined.


Lemma X15_witness :
  exists conn',
    connections_ (Scenario.after [write_ready 0%N] Example.connecting) !! 0%N
    = Some conn'
    /\ permitted (state (Scenario.connection 0%N Example.connecting)) (state conn')
       = true.
Proof.
  destruct (proj1 (X15_dispatch_follows_the_state_machine
                     (E := Reference.collaborators) TCPSocket
                     (write_ready 0%N) Example.connecting
                     (Scenario.after [write_ready 0%N] Example.connecting)
                     (after_dispatch (write_ready 0%N) Example.connecting
                        ltac:(vm_compute; reflexivity)))
                  0%N (Scenario.connection 0%N Example.connecting)
                  (connection_lookup 0%N Example.connecting
                     ltac:(vm_compute; reflexivity)))
    as (conn' & H1 & H2 & _).
  exists conn'. split; assumption.
Defined.

Lemma X16_witness :
  exists conn,
    connections_ Example.dropped !! 0%N = Some conn
    /\ state conn = Closed
    /\ In (close_callback 0%N) (upcalls Example.dropped).
Proof.
  apply (X16_closed_set_names_closed_connections
           (E := Reference.collaborators) TCPSocket Example.dropped 0%N).
  - apply after_reachable, after_reachable, in_poll_start, reachable_new.
  - vm_compute. reflexivity.
Defined.

Lemma X17_witness :
  exists us,
    upcalls (Scenario.after [read_ready 0%N] Scenario.two_texts_pending)
    = (upcalls Scenario.two_texts_pending ++ us)%list
    /\ length us <= 1.
Proof.
  destruct (X17_callbacks_of_one_dispatch
              (E := Reference.collaborators) TCPSocket
              (read_ready 0%N) Scenario.two_texts_pending
              (Scenario.after [read_ready 0%N] Scenario.two_texts_pending)
              (after_dispatch (read_ready 0%N) Scenario.two_texts_pending
                 ltac:(vm_compute; reflexivity)))
    as (us & H1 & H2 & _).
  exists us. split; assumption.
Defined.

Lemma X18_witness :
  size (connections_ Scenario.closed_twice) <= MAX_CONNECTION_NUM.
Proof.
  apply (X18_table_within_the_cap (E := Reference.collaborators) TCPSocket).
  apply after_reachable, after_reachable, in_poll_start, reachable_new.
Defined.

Lemma X19_witness :
  exists us,
    upcalls (Scenario.after_iteration
               [read_ready 0%N; write_ready 0%N; read_ready 0%N]
               Example.first_iteration)
    = (upcalls Example.first_iteration ++ us)%list
    /\ (forall id,
          In (close_callback id) us ->
          connections_ (Scenario.after_iteration
                          [read_ready 0%N; write_ready 0%N; read_ready 0%N]
                          Example.first_iteration) !! id
          = None).
Proof.
  destruct (X19_iteration_erases_the_dropped
              (E := Reference.collaborators) TCPSocket
              [read_ready 0%N; write_ready 0%N; read_ready 0%N]
              Example.first_iteration
              (Scenario.after_iteration
                 [read_ready 0%N; write_ready 0%N; read_ready 0%N]
                 Example.first_iteration)
              (after_iteration_reachable _ _ (reachable_new TCPSocket "0.0.0.0:8080"))
              (after_loop_once [read_ready 0%N; write_ready 0%N; read_ready 0%N]
                 Example.first_iteration ltac:(vm_compute; reflexivity)))
    as (us & H1 & _ & H2 & _).
  exists us. split; assumption.
Defined.

Lemma X21_witness :
  read_callback 0%N Example.early_data = Throw assertion_failure.
Proof.
  apply (proj1 (X21_read_against_its_predicate
                  (E := Reference.collaborators)
                  Example.early_data 0%N
                  (Scenario.connection 0%N Example.early_data)
                  (fst (Socket_read (socket (Scenario.connection 0%N Example.early_data))))
                  (snd (Socket_read (socket (Scenario.connection 0%N Example.early_data))))
                  (connection_lookup 0%N Example.early_data
                     ltac:(vm_compute; reflexivity))
                  (surjective_pairing _)
                  ltac:(vm_compute; reflexivity))).
  vm_compute. reflexivity.
Defined.
